(** * Connection manager of vscode-mssql: sessions, promises and the protocol

    A shallow embedding of [src/controllers/connectionManager.ts].

    The controller is asynchronous JavaScript: its methods run to completion
    on one thread, create promises, send requests to the service host and
    register callbacks that run later.  The embedding keeps that shape:

    - the controller's fields and everything it touches live in one [State]
      record that the methods thread through a small state monad;
    - every callback of the source (a closure) is a constructor that stores
      the variables the closure captures, and one function gives its body;
    - promises made with [new Promise] are cells of a promise store with the
      settle-once rule of the language, and callbacks registered with
      [.then] on them run from a microtask queue;
    - calls that leave the controller (requests to the service host, prompts
      of the connection UI) stay in flight until the environment answers;
    - every call to a collaborator (status view, message boxes, telemetry,
      protocol client, connection UI) is appended to a chronological [log].

    Scope of the model.  The registry [_connections] is a JavaScript object
    used as a dictionary and is modelled as a finite map of its own
    properties.  The [in] operator of the source also sees the properties
    inherited from [Object.prototype] (such as [constructor]); resource
    identifiers are document URIs, which always carry a scheme and never
    spell such a name, and the model covers those.  Clock readings are
    integers (ticks of the high-resolution clock). *)

From stdpp Require Import base gmap list strings.
From Stdlib Require Import ZArith Lia.

Local Open Scope string_scope.
Local Open Scope list_scope.
Local Open Scope nat_scope.

(** ** Data *)

Module Interfaces.

(** [Interfaces.IConnectionCredentials], the fields the controller reads. *)
Record IConnectionCredentials := mkCredentials {
  server : string;
  database : string;
  user : string;
  password : string
}.

End Interfaces.

Module Contracts.

(** Modelled from the spec: [models/contracts] is not under src/.  The
    protocol section of the specification gives the shape of the connect
    and disconnect messages; the field names are the ones the controller
    assigns and reads. *)
Record ConnectionDetails := mkConnectionDetails {
  userName : string;
  password : string;
  serverName : string;
  databaseName : string
}.

Record ConnectParams := mkConnectParams {
  ownerUri : string;
  connection : ConnectionDetails
}.

Record ConnectionResult := mkConnectionResult {
  connectionId : string;
  messages : string
}.

Module DisconnectParams.
Record t := mk { ownerUri : string }.
End DisconnectParams.

(** The two request types the controller sends. *)
Inductive Request :=
| ConnectionRequest (params : ConnectParams)
| DisconnectRequest (params : DisconnectParams.t).

End Contracts.

Module Constants.

(** [models/constants] is not under src/: the three message texts the
    controller uses are parameters of the development. *)
Class t := mk {
  msgError : string;
  msgOpenSqlFile : string;
  msgChooseDatabaseNotConnected : string
}.

End Constants.

(** Information for a document's connection (class [ConnectionInfo]). *)
Record ConnectionInfo := mkConnectionInfo {
  connectionId : string;
  credentials : Interfaces.IConnectionCredentials
}.

Module Timer.

(** Modelled from the spec: [Utils.Timer] is not under src/.  The
    specification speaks of elapsed durations: a timer records the clock
    when it is created and when [end()] is called, and its duration is the
    difference; a timer that was not ended measures up to the present. *)
Record t := mk {
  startTime : Z;
  endTime : option Z
}.

End Timer.

Module Telemetry.

(** The measures sent with the [DatabaseConnected] event. *)
Record Measures := mkMeasures {
  extensionConnectionTime : Z;
  serviceConnectionTime : Z
}.

End Telemetry.

(** ** Promises, callbacks and in-flight calls *)

Abbreviation PromiseId := nat.
Abbreviation CallId := nat.

(** Callbacks registered with [.then] on the promises of [disconnect] and
    [connect]; none of them reads the value of the promise.
    - [ThenConnect], in onChooseDatabase:
      [() => { self.connect(fileUri, newDatabaseCredentials); }]
    - [ThenConnectAndResolve], in onNewConnection:
      [function() { self.connect(fileUri, connectionCreds).then(...); }]
    - [ThenResolveTrue], in onNewConnection: [function() { resolve(true); }] *)
Inductive Reaction :=
| ThenConnect (fileUri : string) (newDatabaseCredentials : Interfaces.IConnectionCredentials)
| ThenConnectAndResolve (fileUri : string) (connectionCreds : Interfaces.IConnectionCredentials)
    (outer : PromiseId)
| ThenResolveTrue (outer : PromiseId).

(** A promise of type [Promise<boolean>].  [reject()] passes no reason:
    the reason of a rejection is optional. *)
Inductive PromiseState :=
| Pending (reactions : list Reaction)
| Fulfilled (value : bool)
| Rejected (reason : option string).

(** Callbacks waiting for an answer from outside the controller, with the
    variables each closure captures. *)
Inductive Awaiting :=
| AwaitConnect (fileUri : string) (connectionCreds : Interfaces.IConnectionCredentials)
    (extensionTimer serviceTimer : Timer.t) (promise : PromiseId)
| AwaitDisconnect (fileUri : string) (promise : PromiseId)
| AwaitDatabasePick (fileUri : string)
| AwaitConnectionPick (fileUri : string) (promise : PromiseId)
| AwaitCreateProfile (promise : PromiseId)
| AwaitRemoveProfile (promise : PromiseId).

Inductive CallState :=
| InFlight (callback : Awaiting)
| Completed.

(** What the environment can answer. *)
Inductive Response :=
| ConnectionResponse (result : Contracts.ConnectionResult)
| DisconnectResponse (result : bool)
| CredentialsPicked (picked : option Interfaces.IConnectionCredentials)
| ProfileCreated (profile : option string)
| ProfileRemoved (result : bool).

(** Calls to collaborators, in the order they happen. *)
Inductive Event :=
| StatusView_connecting (fileUri : string) (creds : Interfaces.IConnectionCredentials)
| StatusView_connectSuccess (fileUri : string) (creds : Interfaces.IConnectionCredentials)
| StatusView_connectError (fileUri : string) (creds : Interfaces.IConnectionCredentials)
    (messages : string)
| StatusView_notConnected (fileUri : string)
| Utils_showInfoMsg (msg : string)
| Utils_showWarnMsg (msg : string)
| Utils_showErrorMsg (msg : string)
| Telemetry_sendTelemetryEvent (eventName : string) (measures : Telemetry.Measures)
| Client_sendRequest (call : CallId) (request : Contracts.Request)
| UI_showConnections (call : CallId)
| UI_showDatabasesOnCurrentServer (call : CallId) (creds : Interfaces.IConnectionCredentials)
| UI_createAndSaveProfile (call : CallId)
| UI_removeProfile (call : CallId).

(** ** State *)

Record State := mkState {
  _connections : gmap string ConnectionInfo;
  activeTextEditorUri : string;
  promises : list PromiseState;
  calls : list CallState;
  microtasks : list Reaction;
  log : list Event;
  hrtime : nat -> Z;
  clockReads : nat
}.

Definition set_connections (f : gmap string ConnectionInfo -> gmap string ConnectionInfo)
    (s : State) : State :=
  mkState (f (_connections s)) (activeTextEditorUri s) (promises s) (calls s)
          (microtasks s) (log s) (hrtime s) (clockReads s).

Definition set_activeTextEditorUri (uri : string) (s : State) : State :=
  mkState (_connections s) uri (promises s) (calls s)
          (microtasks s) (log s) (hrtime s) (clockReads s).

Definition set_promises (f : list PromiseState -> list PromiseState) (s : State) : State :=
  mkState (_connections s) (activeTextEditorUri s) (f (promises s)) (calls s)
          (microtasks s) (log s) (hrtime s) (clockReads s).

Definition set_calls (f : list CallState -> list CallState) (s : State) : State :=
  mkState (_connections s) (activeTextEditorUri s) (promises s) (f (calls s))
          (microtasks s) (log s) (hrtime s) (clockReads s).

Definition set_microtasks (f : list Reaction -> list Reaction) (s : State) : State :=
  mkState (_connections s) (activeTextEditorUri s) (promises s) (calls s)
          (f (microtasks s)) (log s) (hrtime s) (clockReads s).

Definition set_log (f : list Event -> list Event) (s : State) : State :=
  mkState (_connections s) (activeTextEditorUri s) (promises s) (calls s)
          (microtasks s) (f (log s)) (hrtime s) (clockReads s).

Definition set_clockReads (f : nat -> nat) (s : State) : State :=
  mkState (_connections s) (activeTextEditorUri s) (promises s) (calls s)
          (microtasks s) (log s) (hrtime s) (f (clockReads s)).

(** The state a fresh controller starts in: the constructor sets
    [_connections = {}]; nothing is in flight. *)
Definition init (clock : nat -> Z) (uri : string) : State :=
  mkState ∅ uri [] [] [] [] clock 0.

(** ** The monad of the controller's code *)

Definition M (A : Type) : Type := State -> A * State.

Definition ret {A} (a : A) : M A := fun s => (a, s).

Definition bind {A B} (m : M A) (k : A -> M B) : M B :=
  fun s => let (a, s') := m s in k a s'.

Definition modify (f : State -> State) : M unit := fun s => (tt, f s).

Definition gets {A} (f : State -> A) : M A := fun s => (f s, s).

Definition exec {A} (m : M A) (s : State) : State := snd (m s).

Notation "x <~ m ;; k" := (bind m (fun x => k))
  (at level 100, m at next level, right associativity).
Notation "m ;;; k" := (bind m (fun _ => k))
  (at level 100, right associativity).

Definition when (b : bool) (m : M unit) : M unit :=
  if b then m else ret tt.

(** ** The language runtime: promises and the clock *)

Module Runtime.

Definition emit (e : Event) : M unit := modify (set_log (fun l => l ++ [e])).

(** [new Promise(...)]: a fresh pending promise. *)
Definition newPromise : M PromiseId :=
  fun s => (length (promises s), set_promises (fun ps => ps ++ [Pending []]) s).

(** [resolve(value)]: settles a pending promise and queues its callbacks;
    on a promise that is already settled it does nothing. *)
Definition resolve (p : PromiseId) (value : bool) : M unit :=
  fun s =>
    match promises s !! p with
    | Some (Pending reactions) =>
        (tt, set_microtasks (fun q => q ++ reactions)
               (set_promises (fun ps => <[p := Fulfilled value]> ps) s))
    | _ => (tt, s)
    end.

(** [reject()]: settles a pending promise as rejected, with no reason.
    The callbacks of the source are all fulfilment callbacks: none runs. *)
Definition reject (p : PromiseId) : M unit :=
  fun s =>
    match promises s !! p with
    | Some (Pending _) => (tt, set_promises (fun ps => <[p := Rejected None]> ps) s)
    | _ => (tt, s)
    end.

(** [promise.then(callback)]. *)
Definition then_ (p : PromiseId) (r : Reaction) : M unit :=
  fun s =>
    match promises s !! p with
    | Some (Pending reactions) =>
        (tt, set_promises (fun ps => <[p := Pending (reactions ++ [r])]> ps) s)
    | Some (Fulfilled _) => (tt, set_microtasks (fun q => q ++ [r]) s)
    | _ => (tt, s)
    end.

(** A call that leaves the controller; [callback] runs on the answer. *)
Definition await (announce : CallId -> Event) (callback : Awaiting) : M unit :=
  id <~ gets (fun s => length (calls s)) ;;
  emit (announce id) ;;;
  modify (set_calls (fun cs => cs ++ [InFlight callback])).

Definition readClock : M Z :=
  fun s => (hrtime s (clockReads s), set_clockReads S s).

End Runtime.

(** ** Collaborators *)

Module Utils.

(** [models/utils] is not under src/.  The message boxes are calls recorded
    in the log, and the URI of the active editor ([''] when none is open) is
    a field of the state that the environment sets. *)
Definition getActiveTextEditorUri : M string := gets activeTextEditorUri.

Definition showInfoMsg (msg : string) : M unit := Runtime.emit (Utils_showInfoMsg msg).
Definition showWarnMsg (msg : string) : M unit := Runtime.emit (Utils_showWarnMsg msg).
Definition showErrorMsg (msg : string) : M unit := Runtime.emit (Utils_showErrorMsg msg).

(** [new Utils.Timer()] *)
Definition newTimer : M Timer.t :=
  now <~ Runtime.readClock ;; ret (Timer.mk now None).

(** [timer.end()] *)
Definition endTimer (t : Timer.t) : M Timer.t :=
  now <~ Runtime.readClock ;; ret (Timer.mk (Timer.startTime t) (Some now)).

(** [timer.getDuration()] *)
Definition getDuration (t : Timer.t) : M Z :=
  match Timer.endTime t with
  | Some e => ret (e - Timer.startTime t)%Z
  | None => now <~ Runtime.readClock ;; ret (now - Timer.startTime t)%Z
  end.

End Utils.

Module StatusView.

Definition connecting fileUri creds : M unit :=
  Runtime.emit (StatusView_connecting fileUri creds).
Definition connectSuccess fileUri creds : M unit :=
  Runtime.emit (StatusView_connectSuccess fileUri creds).
Definition connectError fileUri creds messages : M unit :=
  Runtime.emit (StatusView_connectError fileUri creds messages).
Definition notConnected fileUri : M unit :=
  Runtime.emit (StatusView_notConnected fileUri).

End StatusView.

Module Client.

(** [client.sendRequest(type, params).then(callback)] *)
Definition sendRequest (request : Contracts.Request) (callback : Awaiting) : M unit :=
  Runtime.await (fun id => Client_sendRequest id request) callback.

End Client.

Module ConnectionUI.

(** The prompts of the connection UI; each returns a promise on which the
    controller registers one callback. *)
Definition showConnections (callback : Awaiting) : M unit :=
  Runtime.await UI_showConnections callback.

Definition showDatabasesOnCurrentServer (creds : Interfaces.IConnectionCredentials)
    (callback : Awaiting) : M unit :=
  Runtime.await (fun id => UI_showDatabasesOnCurrentServer id creds) callback.

Definition createAndSaveProfile (callback : Awaiting) : M unit :=
  Runtime.await UI_createAndSaveProfile callback.

Definition removeProfile (callback : Awaiting) : M unit :=
  Runtime.await UI_removeProfile callback.

End ConnectionUI.

(** ** The controller: class [ConnectionManager] *)

Section ConnectionManager.

Context {K : Constants.t}.

(** [fileUri in this._connections] *)
Definition isConnected (fileUri : string) (s : State) : bool :=
  match _connections s !! fileUri with
  | Some _ => true
  | None => false
  end.

(** The callback of the disconnect request (source lines 84 to 89). *)
Definition disconnectResponse (fileUri : string) (promise : PromiseId) (result : bool)
    : M unit :=
  StatusView.notConnected fileUri ;;;
  modify (set_connections (delete fileUri)) ;;;
  Runtime.resolve promise result.

(** [disconnect(fileUri)].  The [resolve(true)] of line 91 is outside the
    [if]: it runs on both paths, right after the request was sent. *)
Definition disconnect (fileUri : string) : M PromiseId :=
  promise <~ Runtime.newPromise ;;
  connected <~ gets (isConnected fileUri) ;;
  when connected
    (let disconnectParams := Contracts.DisconnectParams.mk fileUri in
     Client.sendRequest (Contracts.DisconnectRequest disconnectParams)
                        (AwaitDisconnect fileUri promise)) ;;;
  Runtime.resolve promise true ;;;
  ret promise.

(** [onDisconnect()] *)
Definition onDisconnect : M PromiseId :=
  fileUri <~ Utils.getActiveTextEditorUri ;;
  disconnect fileUri.

(** The callback of the connection request (source lines 147 to 174).
    [result.connectionId && result.connectionId !== ''] holds of a string
    exactly when it is not empty. *)
Definition connectResponse (fileUri : string)
    (connectionCreds : Interfaces.IConnectionCredentials)
    (extensionTimer serviceTimer : Timer.t) (promise : PromiseId)
    (result : Contracts.ConnectionResult) : M unit :=
  serviceTimer <~ Utils.endTimer serviceTimer ;;
  if negb (String.eqb (Contracts.connectionId result) "") then
    let connection := mkConnectionInfo (Contracts.connectionId result) connectionCreds in
    modify (set_connections (<[fileUri := connection]>)) ;;;
    StatusView.connectSuccess fileUri connectionCreds ;;;
    extensionTimer <~ Utils.endTimer extensionTimer ;;
    extensionDuration <~ Utils.getDuration extensionTimer ;;
    serviceDuration <~ Utils.getDuration serviceTimer ;;
    serviceDuration' <~ Utils.getDuration serviceTimer ;;
    Runtime.emit (Telemetry_sendTelemetryEvent "DatabaseConnected"
      (Telemetry.mkMeasures (extensionDuration - serviceDuration)%Z serviceDuration')) ;;;
    Runtime.resolve promise true
  else
    Utils.showErrorMsg (String.append Constants.msgError (Contracts.messages result)) ;;;
    StatusView.connectError fileUri connectionCreds (Contracts.messages result) ;;;
    Runtime.reject promise.

(** [connect(fileUri, connectionCreds)] *)
Definition connect (fileUri : string)
    (connectionCreds : Interfaces.IConnectionCredentials) : M PromiseId :=
  promise <~ Runtime.newPromise ;;
  extensionTimer <~ Utils.newTimer ;;
  StatusView.connecting fileUri connectionCreds ;;;
  let connectionDetails :=
    Contracts.mkConnectionDetails
      (Interfaces.user connectionCreds) (Interfaces.password connectionCreds)
      (Interfaces.server connectionCreds) (Interfaces.database connectionCreds) in
  let connectParams := Contracts.mkConnectParams fileUri connectionDetails in
  serviceTimer <~ Utils.newTimer ;;
  Client.sendRequest (Contracts.ConnectionRequest connectParams)
    (AwaitConnect fileUri connectionCreds extensionTimer serviceTimer promise) ;;;
  ret promise.

(** The callback of the database prompt (source lines 61 to 67). *)
Definition databasePicked (fileUri : string)
    (newDatabaseCredentials : option Interfaces.IConnectionCredentials) : M unit :=
  match newDatabaseCredentials with
  | Some creds =>
      promise <~ disconnect fileUri ;;
      Runtime.then_ promise (ThenConnect fileUri creds)
  | None => ret tt
  end.

(** [onChooseDatabase()].  The source tests [isConnected(fileUri)] and then
    reads [_connections[fileUri].credentials]; both look at the same entry. *)
Definition onChooseDatabase : M unit :=
  fileUri <~ Utils.getActiveTextEditorUri ;;
  entry <~ gets (fun s => _connections s !! fileUri) ;;
  match entry with
  | None => Utils.showWarnMsg Constants.msgChooseDatabaseNotConnected
  | Some info =>
      ConnectionUI.showDatabasesOnCurrentServer (credentials info)
        (AwaitDatabasePick fileUri)
  end.

(** The callback of the connection picklist (source lines 108 to 119). *)
Definition connectionPicked (fileUri : string) (outer : PromiseId)
    (connectionCreds : option Interfaces.IConnectionCredentials) : M unit :=
  match connectionCreds with
  | Some creds =>
      promise <~ disconnect fileUri ;;
      Runtime.then_ promise (ThenConnectAndResolve fileUri creds outer)
  | None => ret tt
  end.

(** [onNewConnection()].  The test for an empty [fileUri] shows a message
    and falls through: there is no [return] in its branch. *)
Definition onNewConnection : M PromiseId :=
  fileUri <~ Utils.getActiveTextEditorUri ;;
  when (String.eqb fileUri "") (Utils.showInfoMsg Constants.msgOpenSqlFile) ;;;
  promise <~ Runtime.newPromise ;;
  ConnectionUI.showConnections (AwaitConnectionPick fileUri promise) ;;;
  ret promise.

(** The callback of [createAndSaveProfile] (source lines 182 to 187). *)
Definition profileCreated (promise : PromiseId) (profile : option string) : M unit :=
  match profile with
  | Some _ => Runtime.resolve promise true
  | None => Runtime.resolve promise false
  end.

(** [onCreateProfile()] *)
Definition onCreateProfile : M PromiseId :=
  promise <~ Runtime.newPromise ;;
  ConnectionUI.createAndSaveProfile (AwaitCreateProfile promise) ;;;
  ret promise.

(** [onRemoveProfile()] returns the promise of the UI; the model gives it
    a cell of the promise store that the UI's answer settles. *)
Definition onRemoveProfile : M PromiseId :=
  promise <~ Runtime.newPromise ;;
  ConnectionUI.removeProfile (AwaitRemoveProfile promise) ;;;
  ret promise.

(** ** The event loop *)

(** The body of each [.then] callback. *)
Definition runReaction (r : Reaction) : M unit :=
  match r with
  | ThenConnect fileUri creds =>
      connect fileUri creds ;;; ret tt
  | ThenConnectAndResolve fileUri creds outer =>
      promise <~ connect fileUri creds ;;
      Runtime.then_ promise (ThenResolveTrue outer)
  | ThenResolveTrue outer =>
      Runtime.resolve outer true
  end.

(** The callback of an in-flight call applied to the answer; an answer of
    the wrong kind for the call cannot happen. *)
Definition respond (callback : Awaiting) (answer : Response) : option (M unit) :=
  match callback, answer with
  | AwaitConnect fileUri creds extensionTimer serviceTimer promise, ConnectionResponse result =>
      Some (connectResponse fileUri creds extensionTimer serviceTimer promise result)
  | AwaitDisconnect fileUri promise, DisconnectResponse result =>
      Some (disconnectResponse fileUri promise result)
  | AwaitDatabasePick fileUri, CredentialsPicked picked =>
      Some (databasePicked fileUri picked)
  | AwaitConnectionPick fileUri promise, CredentialsPicked picked =>
      Some (connectionPicked fileUri promise picked)
  | AwaitCreateProfile promise, ProfileCreated profile =>
      Some (profileCreated promise profile)
  | AwaitRemoveProfile promise, ProfileRemoved result =>
      Some (Runtime.resolve promise result)
  | _, _ => None
  end.

(** A bound on the callbacks that can still run before the microtask
    queue is empty: a callback that registers another one counts twice. *)
Definition reactionWeight (r : Reaction) : nat :=
  match r with
  | ThenConnectAndResolve _ _ _ => 2
  | _ => 1
  end.

Definition reactionsWeight (rs : list Reaction) : nat :=
  sum_list (reactionWeight <$> rs).

Definition promiseWeight (p : PromiseState) : nat :=
  match p with
  | Pending reactions => reactionsWeight reactions
  | _ => 0
  end.

Definition weight (s : State) : nat :=
  reactionsWeight (microtasks s) + sum_list (promiseWeight <$> promises s).

(** Run queued callbacks, oldest first. *)
Fixpoint drain (fuel : nat) (s : State) : State :=
  match fuel with
  | O => s
  | S fuel' =>
      match microtasks s with
      | [] => s
      | r :: rest => drain fuel' (exec (runReaction r) (set_microtasks (fun _ => rest) s))
      end
  end.

(** Run the microtask queue until it is empty ([runMicrotasks_empty]
    below shows that [weight s] steps always suffice). *)
Definition runMicrotasks (s : State) : State := drain (weight s) s.

(** The public methods of the controller that change something. *)
Inductive Command :=
| Cmd_onChooseDatabase
| Cmd_onDisconnect
| Cmd_disconnect (fileUri : string)
| Cmd_onNewConnection
| Cmd_connect (fileUri : string) (connectionCreds : Interfaces.IConnectionCredentials)
| Cmd_onCreateProfile
| Cmd_onRemoveProfile.

Definition invoke (c : Command) : M unit :=
  match c with
  | Cmd_onChooseDatabase => onChooseDatabase
  | Cmd_onDisconnect => onDisconnect ;;; ret tt
  | Cmd_disconnect fileUri => disconnect fileUri ;;; ret tt
  | Cmd_onNewConnection => onNewConnection ;;; ret tt
  | Cmd_connect fileUri creds => connect fileUri creds ;;; ret tt
  | Cmd_onCreateProfile => onCreateProfile ;;; ret tt
  | Cmd_onRemoveProfile => onRemoveProfile ;;; ret tt
  end.

(** What the environment does: it invokes a method, answers an in-flight
    call, or the user moves to another editor. *)
Inductive Input :=
| Invoke (c : Command)
| Answer (call : CallId) (answer : Response)
| ActiveEditorChanged (uri : string).

(** One turn of the event loop: the synchronous code, then the microtask
    queue.  [None]: the environment cannot do this (no such call in
    flight, or an answer of the wrong kind). *)
Definition step (i : Input) (s : State) : option State :=
  match i with
  | Invoke c => Some (runMicrotasks (exec (invoke c) s))
  | Answer call answer =>
      match calls s !! call with
      | Some (InFlight callback) =>
          match respond callback answer with
          | Some body =>
              Some (runMicrotasks (exec body (set_calls (<[call := Completed]>) s)))
          | None => None
          end
      | _ => None
      end
  | ActiveEditorChanged uri => Some (set_activeTextEditorUri uri s)
  end.

Fixpoint run (inputs : list Input) (s : State) : option State :=
  match inputs with
  | [] => Some s
  | i :: rest =>
      match step i s with
      | Some s' => run rest s'
      | None => None
      end
  end.

End ConnectionManager.

(** * Properties

    ** Vocabulary of the statements *)

Section Vocabulary.

Context {K : Constants.t}.

(** The request message [connect] builds from the credentials. *)
Definition connectParamsOf (fileUri : string) (creds : Interfaces.IConnectionCredentials)
    : Contracts.ConnectParams :=
  Contracts.mkConnectParams fileUri
    (Contracts.mkConnectionDetails
       (Interfaces.user creds) (Interfaces.password creds)
       (Interfaces.server creds) (Interfaces.database creds)).

(** The callback [connect] leaves in flight when it is called in [s]. *)
Definition connectCallback (fileUri : string) (creds : Interfaces.IConnectionCredentials)
    (s : State) : Awaiting :=
  AwaitConnect fileUri creds
    (Timer.mk (hrtime s (clockReads s)) None)
    (Timer.mk (hrtime s (S (clockReads s))) None)
    (length (promises s)).

(** The promise operations change the promise store and the queue only. *)
Definition sameWorld (s s' : State) : Prop :=
  _connections s' = _connections s ∧
  activeTextEditorUri s' = activeTextEditorUri s ∧
  calls s' = calls s ∧
  log s' = log s ∧
  hrtime s' = hrtime s ∧
  clockReads s' = clockReads s.

(** An event that starts a connect: the only events a [.then] callback
      of the source can cause. *)
Definition isConnectStart (e : Event) : bool :=
  match e with
  | StatusView_connecting _ _ => true
  | Client_sendRequest _ (Contracts.ConnectionRequest _) => true
  | _ => false
  end.

(** A call in flight that is a connection request announced in [l]. *)
Definition announcedConnect (l : list Event) (c : CallState) : Prop :=
  ∃ fileUri creds extensionTimer serviceTimer promise,
    c = InFlight (AwaitConnect fileUri creds extensionTimer serviceTimer promise) ∧
    StatusView_connecting fileUri creds ∈ l.

(** What running the microtask queue can change besides promises. *)
Definition startsConnects (s s' : State) : Prop :=
  _connections s' = _connections s ∧
  activeTextEditorUri s' = activeTextEditorUri s ∧
  hrtime s' = hrtime s ∧
  (∃ new, calls s' = calls s ++ new ∧ Forall (announcedConnect (log s')) new) ∧
  (∃ events, log s' = log s ++ events ∧ Forall (λ e, isConnectStart e = true) events).

(** The telemetry events of a log, oldest first. *)
Definition telemetryOf (l : list Event) : list (string * Telemetry.Measures) :=
  omap (λ e, match e with
             | Telemetry_sendTelemetryEvent name measures => Some (name, measures)
             | _ => None
             end) l.

(** The [n]-th clock reading after the ones already made in [s]. *)
Definition clockAfter (s : State) (n : nat) : Z := hrtime s (clockReads s + n).




(** A change of state that adds or alters no registry entry, keeps the log
    and adds only connection requests that the log announces. *)
Definition quiet (s s' : State) : Prop :=
  (∀ fileUri info, _connections s' !! fileUri = Some info →
                   _connections s !! fileUri = Some info) ∧
  (∃ events, log s' = log s ++ events) ∧
  (∀ call fileUri creds extensionTimer serviceTimer promise,
     calls s' !! call
       = Some (InFlight (AwaitConnect fileUri creds extensionTimer serviceTimer promise)) →
     calls s !! call
       = Some (InFlight (AwaitConnect fileUri creds extensionTimer serviceTimer promise)) ∨
     StatusView_connecting fileUri creds ∈ log s').

(** Code of the controller that only makes quiet changes. *)
Definition gentle {A} (m : M A) : Prop := ∀ s, quiet s (snd (m s)).

(** A callback other than the one of a connection request. *)
Definition notConnectCallback (callback : Awaiting) : Prop :=
  match callback with
  | AwaitConnect _ _ _ _ _ => False
  | _ => True
  end.

(** The promise a callback settles when it runs. *)
Definition callbackTarget (callback : Awaiting) : option nat :=
  match callback with
  | AwaitConnect _ _ _ _ promise => Some promise
  | AwaitDisconnect _ promise => Some promise
  | AwaitDatabasePick _ => None
  | AwaitConnectionPick _ promise => Some promise
  | AwaitCreateProfile promise => Some promise
  | AwaitRemoveProfile promise => Some promise
  end.

Definition reactionTarget (r : Reaction) : option nat :=
  match r with
  | ThenConnect _ _ => None
  | ThenConnectAndResolve _ _ outer => Some outer
  | ThenResolveTrue outer => Some outer
  end.

(** [p] is the promise of a connect that waits for its answer. *)
Definition connectPromise (s : State) (p : nat) : Prop :=
  ∃ call fileUri creds extensionTimer serviceTimer,
    calls s !! call
      = Some (InFlight (AwaitConnect fileUri creds extensionTimer serviceTimer p)).

(** [q] is a promise that some other pending piece of code settles: a
    callback in flight that is not a connect's, or a [.then] callback that
    is queued or registered. *)
Definition otherTarget (s : State) (q : nat) : Prop :=
  (∃ call callback, calls s !! call = Some (InFlight callback) ∧
                    notConnectCallback callback ∧ callbackTarget callback = Some q) ∨
  (∃ r, r ∈ microtasks s ∧ reactionTarget r = Some q) ∨
  (∃ p reactions r, promises s !! p = Some (Pending reactions) ∧ r ∈ reactions ∧
                    reactionTarget r = Some q).

(** The promise of a connect in flight is pending, and its callback is the
    only code that will settle it. *)
Definition promisesOk (s : State) : Prop :=
  (∀ call call' f c e t f' c' e' t' p,
     calls s !! call = Some (InFlight (AwaitConnect f c e t p)) →
     calls s !! call' = Some (InFlight (AwaitConnect f' c' e' t' p)) →
     call = call') ∧
  (∀ p, connectPromise s p → ∃ reactions, promises s !! p = Some (Pending reactions)) ∧
  (∀ q, otherTarget s q → ¬ connectPromise s q) ∧
  (∀ q, otherTarget s q → q < length (promises s)).

(** [q] exists and no connect in flight owns it. *)
Definition free (s : State) (q : nat) : Prop :=
  ¬ connectPromise s q ∧ q < length (promises s).

Definition keepsFree (s s' : State) : Prop := ∀ q, free s q → free s' q.

(** Code that keeps [promisesOk], given that the promises [qs] it may
    settle or hand on are free; [fresh] lists the promises it returns. *)
Definition careful {A} (qs : list nat) (m : M A) (fresh : A → list nat) : Prop :=
  ∀ s, promisesOk s → Forall (free s) qs →
       promisesOk (snd (m s)) ∧ keepsFree s (snd (m s)) ∧
       Forall (free (snd (m s))) (fresh (fst (m s))).

(** The resource a callback of the protocol client belongs to. *)
Definition requestOwner (c : CallState) : option string :=
  match c with
  | InFlight (AwaitConnect fileUri _ _ _ _) => Some fileUri
  | InFlight (AwaitDisconnect fileUri _) => Some fileUri
  | _ => None
  end.

(** The number of protocol requests of [fileUri] that wait for their answer. *)
Definition requestsInFlight (fileUri : string) (s : State) : nat :=
  length (filter (λ c, requestOwner c = Some fileUri) (calls s)).

(** The states the controller can be in when the event loop is idle. *)
Definition reachable (s : State) : Prop :=
  ∃ clock uri inputs, run inputs (init clock uri) = Some s.

End Vocabulary.

(** Values for the examples. *)
Module Sample.

Definition constants : Constants.t :=
  Constants.mk "Error: " "Open a SQL file first." "No connection was found.".

Definition creds1 : Interfaces.IConnectionCredentials :=
  Interfaces.mkCredentials "localhost" "db1" "a" "secret".

Definition creds2 : Interfaces.IConnectionCredentials :=
  Interfaces.mkCredentials "localhost" "db2" "a" "secret".

(** A clock whose readings are 0, 10, 40, 90, 160, ... *)
Definition clock (n : nat) : Z := (10 * Z.of_nat n * Z.of_nat n)%Z.

Definition uri : string := "untitled:Untitled-1".

(** A fresh controller with one editor open, and one with no editor. *)
Definition start : State := init clock uri.

Definition noEditor : State := init clock "".

Definition connected : Contracts.ConnectionResult :=
  Contracts.mkConnectionResult "abc" "".

Definition refused : Contracts.ConnectionResult :=
  Contracts.mkConnectionResult "" "Login failed for user a.".

(** [connect] was called for [uri] with [creds1]; no answer yet. *)
Definition connectSent : State := snd (connect uri creds1 start).

(** [uri] was connected with [creds1] and the answer arrived. *)
Definition afterConnect : State :=
  default start
    (@run constants
       [Invoke (Cmd_connect uri creds1); Answer 0 (ConnectionResponse connected)] start).

(** After that, a disconnect and a second connect were called for [uri] and
    none of the two was answered yet. *)
Definition overlapping : State :=
  default start
    (@run constants
       [Invoke (Cmd_disconnect uri); Invoke (Cmd_connect uri creds2)] afterConnect).

End Sample.

(** ** Vocabulary of the further properties *)

Section MoreVocabulary.

Context {K : Constants.t}.

(** The events that go with a change of the registry: the status view is
    told that a resource is connected or not connected, and the telemetry
    of a connect. *)
Definition sessionEvent (e : Event) : bool :=
  match e with
  | StatusView_connectSuccess _ _ => true
  | StatusView_notConnected _ => true
  | Telemetry_sendTelemetryEvent _ _ => true
  | _ => false
  end.

(** A change of state that leaves the registry alone and logs no session
    event. *)
Definition inert (s s' : State) : Prop :=
  _connections s' = _connections s ∧
  ∃ events, log s' = log s ++ events ∧ Forall (λ e, sessionEvent e = false) events.

(** A change of state that leaves every settled promise as it is. *)
Definition settledKept (s s' : State) : Prop :=
  ∀ p outcome, promises s !! p = Some outcome →
               (∀ reactions, outcome ≠ Pending reactions) →
               promises s' !! p = Some outcome.

(** Code whose every run changes the state within the relation [R]. *)
Definition respects (R : State → State → Prop) {A} (m : M A) : Prop :=
  ∀ s, R s (snd (m s)).

(** What the status view was last told about [fileUri]: the credentials of
    the last [connectSuccess] if no [notConnected] came after it. *)
Definition shownUpdate (fileUri : string)
    (shown : option Interfaces.IConnectionCredentials) (e : Event)
    : option Interfaces.IConnectionCredentials :=
  match e with
  | StatusView_connectSuccess f creds => if String.eqb f fileUri then Some creds else shown
  | StatusView_notConnected f => if String.eqb f fileUri then None else shown
  | _ => shown
  end.

Definition shownSession (l : list Event) (fileUri : string)
    : option Interfaces.IConnectionCredentials :=
  foldl (shownUpdate fileUri) None l.


(** The turn put the session of [fileUri] into the registry: one entry
    written, the status view told, one telemetry event, and after that
    nothing that touches a session. *)
Definition connectedBy (fileUri : string) (creds : Interfaces.IConnectionCredentials)
    (handle : string) (s s' : State) : Prop :=
  _connections s' = <[fileUri := mkConnectionInfo handle creds]> (_connections s) ∧
  ∃ measures later,
    log s' = log s ++ StatusView_connectSuccess fileUri creds
                   :: Telemetry_sendTelemetryEvent "DatabaseConnected" measures
                   :: later ∧
    Forall (λ e, sessionEvent e = false) later.

(** The turn took the session of [fileUri] out of the registry and told the
    status view. *)
Definition disconnectedBy (fileUri : string) (s s' : State) : Prop :=
  _connections s' = delete fileUri (_connections s) ∧
  ∃ later,
    log s' = log s ++ StatusView_notConnected fileUri :: later ∧
    Forall (λ e, sessionEvent e = false) later.

(** No callback in flight, queued or registered settles [p]. *)
Definition untargeted (s : State) (p : nat) : Prop :=
  ¬ connectPromise s p ∧ ¬ otherTarget s p.

(** Code that does not look at the active editor: with another editor
    active it returns the same value and makes the same changes. *)
Definition editorBlind {A} (m : M A) : Prop :=
  ∀ uri s, m (set_activeTextEditorUri uri s)
           = (fst (m s), set_activeTextEditorUri uri (snd (m s))).

(** The inputs that read the active editor (the three methods that call
    [Utils.getActiveTextEditorUri]) or set it. *)
Definition usesActiveEditor (i : Input) : bool :=
  match i with
  | Invoke Cmd_onChooseDatabase => true
  | Invoke Cmd_onDisconnect => true
  | Invoke Cmd_onNewConnection => true
  | ActiveEditorChanged _ => true
  | _ => false
  end.

(** A clock that never runs backwards. *)
Definition steady (clock : nat → Z) : Prop :=
  ∀ i j, i ≤ j → (clock i ≤ clock j)%Z.

(** Two running timers that were started at readings of the clock already
    made, the extension timer no later than the service timer. *)
Definition timersAt (s : State) (extensionTimer serviceTimer : Timer.t) : Prop :=
  ∃ i j, i ≤ j ∧ j < clockReads s ∧
         extensionTimer = Timer.mk (hrtime s i) None ∧
         serviceTimer = Timer.mk (hrtime s j) None.

(** The timers of every connection request in flight are such timers. *)
Definition timersOk (s : State) : Prop :=
  ∀ call fileUri creds extensionTimer serviceTimer promise,
    calls s !! call
      = Some (InFlight (AwaitConnect fileUri creds extensionTimer serviceTimer promise)) →
    timersAt s extensionTimer serviceTimer.

(** No measure of a telemetry event of the log is negative. *)
Definition measuresOk (l : list Event) : Prop :=
  ∀ name measures, (name, measures) ∈ telemetryOf l →
    (0 ≤ Telemetry.extensionConnectionTime measures)%Z ∧
    (0 ≤ Telemetry.serviceConnectionTime measures)%Z.

(** A change of state in which time goes on, no telemetry is sent and the
    connection requests that are new have timers as above. *)
Definition ticking (s s' : State) : Prop :=
  hrtime s' = hrtime s ∧
  clockReads s ≤ clockReads s' ∧
  telemetryOf (log s') = telemetryOf (log s) ∧
  ∀ call fileUri creds extensionTimer serviceTimer promise,
    calls s' !! call
      = Some (InFlight (AwaitConnect fileUri creds extensionTimer serviceTimer promise)) →
    calls s !! call
      = Some (InFlight (AwaitConnect fileUri creds extensionTimer serviceTimer promise)) ∨
    timersAt s' extensionTimer serviceTimer.

Definition timed (s : State) : Prop :=
  timersOk s ∧ (steady (hrtime s) → measuresOk (log s)).

End MoreVocabulary.
(** ** Facts about the runtime *)

Ltac unfold_m :=
  cbv [bind ret modify gets when exec Runtime.newPromise Utils.newTimer Utils.endTimer
       Runtime.readClock Runtime.emit Runtime.await Client.sendRequest
       StatusView.connecting StatusView.connectSuccess StatusView.connectError
       StatusView.notConnected Utils.showInfoMsg Utils.showWarnMsg Utils.showErrorMsg
       Utils.getActiveTextEditorUri ConnectionUI.showConnections
       ConnectionUI.showDatabasesOnCurrentServer ConnectionUI.createAndSaveProfile
       ConnectionUI.removeProfile] in *.

Ltac simpl_state :=
  cbv [set_connections set_activeTextEditorUri set_promises set_calls set_microtasks
       set_log set_clockReads] in *;
  cbn [_connections activeTextEditorUri promises calls microtasks log hrtime clockReads
       fst snd] in *.

Ltac run_m := unfold_m; simpl_state.

Section RuntimeFacts.

Context {K : Constants.t}.

Lemma sum_list_app (l k : list nat) : sum_list (l ++ k) = sum_list l + sum_list k.
Proof. induction l as [|x l IH]; cbn; [done | rewrite IH; lia]. Qed.

Lemma reactionsWeight_app l k :
  reactionsWeight (l ++ k) = reactionsWeight l + reactionsWeight k.
Proof. unfold reactionsWeight. by rewrite fmap_app, sum_list_app. Qed.

Lemma reactionWeight_pos r : 1 ≤ reactionWeight r.
Proof. destruct r; cbn; lia. Qed.

Lemma reactionsWeight_0 l : reactionsWeight l = 0 → l = [].
Proof.
  destruct l as [|r l]; [done|]. unfold reactionsWeight. cbn.
  pose proof (reactionWeight_pos r). lia.
Qed.

Lemma promisesWeight_insert (ps : list PromiseState) p x y :
  ps !! p = Some x →
  sum_list (promiseWeight <$> <[p := y]> ps) + promiseWeight x
  = sum_list (promiseWeight <$> ps) + promiseWeight y.
Proof.
  revert p. induction ps as [|z ps IH]; intros [|p] Hp; try done; csimpl in *.
  - injection Hp as ->. lia.
  - specialize (IH p Hp). lia.
Qed.

Lemma weight_resolve p v s : weight (exec (Runtime.resolve p v) s) = weight s.
Proof.
  unfold exec, Runtime.resolve.
  destruct (promises s !! p) as [[rs| |]|] eqn:Hp; try done.
  unfold weight; cbn [snd microtasks promises set_microtasks set_promises].
  rewrite reactionsWeight_app.
  pose proof (promisesWeight_insert _ _ _ (Fulfilled v) Hp) as H.
  cbn [promiseWeight] in H. lia.
Qed.

Lemma weight_then p r s :
  weight (exec (Runtime.then_ p r) s) ≤ weight s + reactionWeight r.
Proof.
  unfold exec, Runtime.then_.
  assert (reactionsWeight [r] = reactionWeight r) as Hr.
  { unfold reactionsWeight. cbn. lia. }
  destruct (promises s !! p) as [[rs| |]|] eqn:Hp; cbn [snd]; try lia.
  - unfold weight; cbn [microtasks promises set_microtasks set_promises].
    pose proof (promisesWeight_insert _ _ _ (Pending (rs ++ [r])) Hp) as H.
    cbn [promiseWeight] in H. rewrite reactionsWeight_app in H. lia.
  - unfold weight; cbn [microtasks promises set_microtasks set_promises].
    rewrite reactionsWeight_app. lia.
Qed.

Lemma weight_connect fileUri creds s :
  weight (snd (connect fileUri creds s)) = weight s.
Proof.
  unfold connect. unfold_m. unfold weight.
  cbn [snd microtasks promises set_microtasks set_promises set_calls set_log
       set_clockReads].
  rewrite fmap_app, sum_list_app. cbn. lia.
Qed.

Lemma weight_runReaction r s :
  weight (exec (runReaction r) s) + 1 ≤ weight s + reactionWeight r.
Proof.
  destruct r as [fileUri creds | fileUri creds outer | outer]; cbn [runReaction reactionWeight].
  - unfold exec, bind, ret.
    pose proof (weight_connect fileUri creds s).
    destruct (connect fileUri creds s) as [p s1]. cbn in *. lia.
  - unfold exec, bind.
    pose proof (weight_connect fileUri creds s).
    destruct (connect fileUri creds s) as [p s1]. cbn [snd] in *.
    pose proof (weight_then p (ThenResolveTrue outer) s1). unfold exec in *.
    cbn [reactionWeight] in *. lia.
  - rewrite weight_resolve. lia.
Qed.

Lemma drain_empty fuel s : weight s ≤ fuel → microtasks (drain fuel s) = [].
Proof.
  revert s. induction fuel as [|fuel IH]; intros s Hw; cbn [drain].
  - apply reactionsWeight_0. unfold weight in Hw. lia.
  - destruct (microtasks s) as [|r rest] eqn:Hq; [done|].
    apply IH.
    pose proof (weight_runReaction r (set_microtasks (λ _, rest) s)) as H.
    assert (weight s = reactionWeight r + weight (set_microtasks (λ _, rest) s)) as Hs.
    { unfold weight. rewrite Hq. cbn. unfold reactionsWeight. cbn. lia. }
    lia.
Qed.

(** The microtask queue is always run to the end. *)
Lemma runMicrotasks_empty s : microtasks (runMicrotasks s) = [].
Proof. by apply drain_empty. Qed.

Lemma drain_quiescent fuel s : microtasks s = [] → drain fuel s = s.
Proof. intros H. destruct fuel; cbn; [done | by rewrite H]. Qed.

Lemma runMicrotasks_quiescent s : microtasks s = [] → runMicrotasks s = s.
Proof. apply drain_quiescent. Qed.

Lemma weight_cons r rest s :
  microtasks s = r :: rest →
  weight s = reactionWeight r + weight (set_microtasks (λ _, rest) s).
Proof.
  intros Hq. unfold weight. rewrite Hq. simpl_state.
  unfold reactionsWeight. cbn. lia.
Qed.

(** More fuel than [weight s] changes nothing. *)
Lemma drain_stable fuel s : weight s ≤ fuel → drain (S fuel) s = drain fuel s.
Proof.
  revert s. induction fuel as [|fuel IH]; intros s Hw.
  - assert (microtasks s = []) as Hq.
    { apply reactionsWeight_0. unfold weight in Hw. lia. }
    cbn. by rewrite Hq.
  - cbn [drain]. destruct (microtasks s) as [|r rest] eqn:Hq; [done|].
    apply IH.
    pose proof (weight_runReaction r (set_microtasks (λ _, rest) s)).
    pose proof (weight_cons _ _ _ Hq). lia.
Qed.

Lemma drain_enough fuel s : weight s ≤ fuel → drain fuel s = runMicrotasks s.
Proof.
  unfold runMicrotasks. intros Hw.
  replace fuel with ((fuel - weight s) + weight s) by lia.
  induction (fuel - weight s) as [|d IH]; [done|].
  cbn [Nat.add]. rewrite drain_stable by lia. exact IH.
Qed.

(** The queue is run one callback at a time, oldest first. *)
Lemma runMicrotasks_cons r rest s :
  microtasks s = r :: rest →
  runMicrotasks s = runMicrotasks (exec (runReaction r) (set_microtasks (λ _, rest) s)).
Proof.
  intros Hq. unfold runMicrotasks at 1.
  pose proof (weight_cons _ _ _ Hq) as Hw.
  pose proof (reactionWeight_pos r).
  destruct (weight s) as [|n] eqn:Hn; [lia|].
  cbn [drain]. rewrite Hq. apply drain_enough.
  pose proof (weight_runReaction r (set_microtasks (λ _, rest) s)). lia.
Qed.

End RuntimeFacts.

Section Shapes.

Context {K : Constants.t}.

Lemma connect_eq fileUri creds s :
  connect fileUri creds s =
  (length (promises s),
   mkState (_connections s) (activeTextEditorUri s)
     (promises s ++ [Pending []])
     (calls s ++ [InFlight (connectCallback fileUri creds s)])
     (microtasks s)
     (log s ++ [StatusView_connecting fileUri creds;
                Client_sendRequest (length (calls s))
                  (Contracts.ConnectionRequest (connectParamsOf fileUri creds))])
     (hrtime s) (S (S (clockReads s)))).
Proof.
  unfold connect, connectCallback, connectParamsOf. run_m. by rewrite <- app_assoc.
Qed.

Lemma insert_snoc {A} (l : list A) (x y : A) : <[length l := y]> (l ++ [x]) = l ++ [y].
Proof.
  replace (length l) with (length l + 0) at 1 by lia. by rewrite insert_app_r.
Qed.

Lemma lookup_snoc {A} (l : list A) (x : A) : (l ++ [x]) !! length l = Some x.
Proof. by apply list_lookup_middle. Qed.

Lemma disconnect_connected fileUri info s :
  _connections s !! fileUri = Some info →
  disconnect fileUri s =
  (length (promises s),
   mkState (_connections s) (activeTextEditorUri s)
     (promises s ++ [Fulfilled true])
     (calls s ++ [InFlight (AwaitDisconnect fileUri (length (promises s)))])
     (microtasks s)
     (log s ++ [Client_sendRequest (length (calls s))
                  (Contracts.DisconnectRequest (Contracts.DisconnectParams.mk fileUri))])
     (hrtime s) (clockReads s)).
Proof.
  intros Hin. unfold disconnect, Runtime.resolve, isConnected. run_m.
  rewrite Hin. run_m. rewrite lookup_snoc. run_m.
  by rewrite insert_snoc, app_nil_r.
Qed.

Lemma disconnect_not_connected fileUri s :
  _connections s !! fileUri = None →
  disconnect fileUri s =
  (length (promises s),
   mkState (_connections s) (activeTextEditorUri s)
     (promises s ++ [Fulfilled true])
     (calls s) (microtasks s) (log s) (hrtime s) (clockReads s)).
Proof.
  intros Hin. unfold disconnect, Runtime.resolve, isConnected. run_m.
  rewrite Hin. run_m. rewrite lookup_snoc. run_m.
  by rewrite insert_snoc, app_nil_r.
Qed.

Lemma connectResponse_success fileUri creds extensionTimer serviceTimer promise result s :
  Contracts.connectionId result ≠ "" →
  connectResponse fileUri creds extensionTimer serviceTimer promise result s =
  Runtime.resolve promise true
    (mkState
       (<[fileUri := mkConnectionInfo (Contracts.connectionId result) creds]> (_connections s))
       (activeTextEditorUri s) (promises s) (calls s) (microtasks s)
       (log s ++ [StatusView_connectSuccess fileUri creds;
                  Telemetry_sendTelemetryEvent "DatabaseConnected"
                    (Telemetry.mkMeasures
                       ((hrtime s (S (clockReads s)) - Timer.startTime extensionTimer)
                        - (hrtime s (clockReads s) - Timer.startTime serviceTimer))%Z
                       (hrtime s (clockReads s) - Timer.startTime serviceTimer)%Z)])
       (hrtime s) (S (S (clockReads s)))).
Proof.
  intros Hid. unfold connectResponse. run_m.
  destruct (String.eqb_spec (Contracts.connectionId result) ""); [done|].
  cbn [negb Utils.getDuration Timer.endTime Timer.startTime]. run_m.
  by rewrite <- app_assoc.
Qed.

Lemma connectResponse_failure fileUri creds extensionTimer serviceTimer promise result s :
  Contracts.connectionId result = "" →
  connectResponse fileUri creds extensionTimer serviceTimer promise result s =
  Runtime.reject promise
    (mkState (_connections s) (activeTextEditorUri s) (promises s) (calls s) (microtasks s)
       (log s ++ [Utils_showErrorMsg
                    (String.append Constants.msgError (Contracts.messages result));
                  StatusView_connectError fileUri creds (Contracts.messages result)])
       (hrtime s) (S (clockReads s))).
Proof.
  intros Hid. unfold connectResponse. run_m. rewrite Hid. cbn [String.eqb negb].
  run_m. by rewrite <- app_assoc.
Qed.

Lemma disconnectResponse_eq fileUri promise result s :
  disconnectResponse fileUri promise result s =
  Runtime.resolve promise result
    (mkState (delete fileUri (_connections s)) (activeTextEditorUri s) (promises s)
       (calls s) (microtasks s) (log s ++ [StatusView_notConnected fileUri])
       (hrtime s) (clockReads s)).
Proof. unfold disconnectResponse. by run_m. Qed.

End Shapes.

(** ** What the promise operations and the microtask queue leave alone *)

Section Frames.

Context {K : Constants.t}.

Lemma sameWorld_resolve p v s : sameWorld s (exec (Runtime.resolve p v) s).
Proof.
  unfold exec, Runtime.resolve.
  destruct (promises s !! p) as [[rs| |]|]; by repeat split.
Qed.

Lemma sameWorld_reject p s : sameWorld s (exec (Runtime.reject p) s).
Proof.
  unfold exec, Runtime.reject.
  destruct (promises s !! p) as [[rs| |]|]; by repeat split.
Qed.

Lemma sameWorld_then p r s : sameWorld s (exec (Runtime.then_ p r) s).
Proof.
  unfold exec, Runtime.then_.
  destruct (promises s !! p) as [[rs| |]|]; by repeat split.
Qed.

Lemma startsConnects_refl s : startsConnects s s.
Proof.
  repeat split; try done; exists []; by rewrite app_nil_r.
Qed.

Lemma announcedConnect_mono l l' c :
  announcedConnect l c → announcedConnect (l ++ l') c.
Proof.
  intros (f & cr & e & t & p & -> & Hin). exists f, cr, e, t, p. split; [done|].
  apply elem_of_app. by left.
Qed.

Lemma startsConnects_trans s1 s2 s3 :
  startsConnects s1 s2 → startsConnects s2 s3 → startsConnects s1 s3.
Proof.
  intros (Hc1 & Hu1 & Hh1 & (n1 & Hn1 & Hf1) & (e1 & He1 & Hg1))
         (Hc2 & Hu2 & Hh2 & (n2 & Hn2 & Hf2) & (e2 & He2 & Hg2)).
  repeat split; try congruence.
  - exists (n1 ++ n2). split; [rewrite Hn2, Hn1; by rewrite app_assoc|].
    apply Forall_app. split; [|done].
    rewrite He2. eapply Forall_impl; [exact Hf1|].
    intros c. apply announcedConnect_mono.
  - exists (e1 ++ e2). split; [rewrite He2, He1; by rewrite app_assoc|].
    by apply Forall_app.
Qed.

Lemma startsConnects_sameWorld s s' : sameWorld s s' → startsConnects s s'.
Proof.
  intros (Hc & Hu & Hcalls & Hlog & Hh & _).
  repeat split; try done; exists []; rewrite app_nil_r; by split.
Qed.

Lemma startsConnects_connect fileUri creds s :
  startsConnects s (snd (connect fileUri creds s)).
Proof.
  rewrite connect_eq. cbn [snd]. repeat split; try done; cbn.
  - eexists. split; [done|]. apply Forall_singleton.
    eexists _, _, _, _, _. split; [done|]. set_solver.
  - eexists. split; [done|]. by repeat constructor.
Qed.

Lemma startsConnects_runReaction r s : startsConnects s (exec (runReaction r) s).
Proof.
  destruct r as [fileUri creds | fileUri creds outer | outer]; cbn [runReaction].
  - unfold exec, bind, ret.
    pose proof (startsConnects_connect fileUri creds s) as H.
    by destruct (connect fileUri creds s).
  - unfold exec, bind.
    pose proof (startsConnects_connect fileUri creds s) as H.
    destruct (connect fileUri creds s) as [p s1]. cbn [snd] in *.
    eapply startsConnects_trans; [exact H|].
    apply startsConnects_sameWorld, sameWorld_then.
  - apply startsConnects_sameWorld, sameWorld_resolve.
Qed.

Lemma startsConnects_drain fuel s : startsConnects s (drain fuel s).
Proof.
  revert s. induction fuel as [|fuel IH]; intros s; cbn [drain].
  - apply startsConnects_refl.
  - destruct (microtasks s) as [|r rest]; [apply startsConnects_refl|].
    eapply startsConnects_trans; [|apply IH].
    eapply startsConnects_trans; [|apply startsConnects_runReaction].
    apply startsConnects_sameWorld. by repeat split.
Qed.

Lemma startsConnects_runMicrotasks s : startsConnects s (runMicrotasks s).
Proof. apply startsConnects_drain. Qed.

End Frames.

(** ** One turn of the event loop *)

Section Steps.

Context {K : Constants.t}.

Lemma step_connect fileUri creds s :
  microtasks s = [] →
  step (Invoke (Cmd_connect fileUri creds)) s = Some (snd (connect fileUri creds s)).
Proof.
  intros Hq. cbn [step invoke]. f_equal. unfold exec, bind, ret.
  rewrite connect_eq. cbn [snd]. by apply runMicrotasks_quiescent.
Qed.

Lemma step_disconnect fileUri s :
  microtasks s = [] →
  step (Invoke (Cmd_disconnect fileUri)) s = Some (snd (disconnect fileUri s)).
Proof.
  intros Hq. cbn [step invoke]. f_equal. unfold exec, bind, ret.
  destruct (_connections s !! fileUri) as [info|] eqn:Hin.
  - rewrite (disconnect_connected _ _ _ Hin). cbn [snd]. by apply runMicrotasks_quiescent.
  - rewrite (disconnect_not_connected _ _ Hin). cbn [snd]. by apply runMicrotasks_quiescent.
Qed.

(** The callback of an in-flight call runs on its answer, then the queue. *)
Lemma step_answer call callback answer body s :
  calls s !! call = Some (InFlight callback) →
  respond callback answer = Some body →
  step (Answer call answer) s
  = Some (runMicrotasks (exec body (set_calls (<[call := Completed]>) s))).
Proof. intros Hc Hr. cbn [step]. by rewrite Hc, Hr. Qed.




(** A disconnect of a connected resource that is answered, start to end. *)
Lemma disconnect_answered fileUri info result s :
  microtasks s = [] →
  _connections s !! fileUri = Some info →
  run [Invoke (Cmd_disconnect fileUri);
       Answer (length (calls s)) (DisconnectResponse result)] s
  = Some (mkState
      (delete fileUri (_connections s))
      (activeTextEditorUri s)
      (promises s ++ [Fulfilled true])
      (calls s ++ [Completed])
      []
      (log s ++ [Client_sendRequest (length (calls s))
                   (Contracts.DisconnectRequest (Contracts.DisconnectParams.mk fileUri));
                 StatusView_notConnected fileUri])
      (hrtime s) (clockReads s)).
Proof.
  intros Hq Hin. cbn [run]. rewrite (step_disconnect _ _ Hq).
  rewrite (disconnect_connected _ _ _ Hin). cbn [snd].
  erewrite step_answer; [| cbn [calls]; apply lookup_snoc | reflexivity ].
  unfold exec. rewrite disconnectResponse_eq.
  unfold Runtime.resolve. simpl_state. rewrite lookup_snoc. simpl_state.
  rewrite runMicrotasks_quiescent by done.
  by rewrite insert_snoc, <- app_assoc, Hq.
Qed.

Lemma lookup_after {A} (l k : list A) (n : nat) : (l ++ k) !! (length l + n) = k !! n.
Proof. rewrite lookup_app_r by lia. f_equal. lia. Qed.

Lemma step_onChooseDatabase info s :
  microtasks s = [] →
  _connections s !! activeTextEditorUri s = Some info →
  step (Invoke Cmd_onChooseDatabase) s
  = Some (mkState (_connections s) (activeTextEditorUri s) (promises s)
      (calls s ++ [InFlight (AwaitDatabasePick (activeTextEditorUri s))])
      []
      (log s ++ [UI_showDatabasesOnCurrentServer (length (calls s)) (credentials info)])
      (hrtime s) (clockReads s)).
Proof.
  intros Hq Hin. cbn [step invoke]. unfold onChooseDatabase. run_m. rewrite Hin.
  run_m. rewrite runMicrotasks_quiescent by done. by rewrite Hq.
Qed.

(** The user picks a database for a connected resource: the disconnect
    request and the connect request leave in the same turn. *)
Lemma database_picked fileUri info creds call s :
  microtasks s = [] →
  _connections s !! fileUri = Some info →
  calls s !! call = Some (InFlight (AwaitDatabasePick fileUri)) →
  step (Answer call (CredentialsPicked (Some creds))) s
  = Some (mkState (_connections s) (activeTextEditorUri s)
      (promises s ++ [Fulfilled true; Pending []])
      (<[call := Completed]> (calls s) ++
         [InFlight (AwaitDisconnect fileUri (length (promises s)));
          InFlight (AwaitConnect fileUri creds
                      (Timer.mk (clockAfter s 0) None) (Timer.mk (clockAfter s 1) None)
                      (S (length (promises s))))])
      []
      (log s ++
         [Client_sendRequest (length (calls s))
            (Contracts.DisconnectRequest (Contracts.DisconnectParams.mk fileUri));
          StatusView_connecting fileUri creds;
          Client_sendRequest (S (length (calls s)))
            (Contracts.ConnectionRequest (connectParamsOf fileUri creds))])
      (hrtime s) (clockReads s + 2)).
Proof.
  intros Hq Hin Hcall.
  erewrite step_answer; [| done | reflexivity]. f_equal.
  unfold databasePicked, exec, bind.
  rewrite (disconnect_connected _ info) by done. simpl_state.
  unfold Runtime.then_. simpl_state. rewrite lookup_snoc. simpl_state.
  erewrite runMicrotasks_cons; [|simpl_state; by rewrite Hq].
  simpl_state. cbn [runReaction]. unfold exec, bind, ret. rewrite connect_eq.
  simpl_state. rewrite runMicrotasks_quiescent by done.
  unfold connectCallback, clockAfter. simpl_state.
  rewrite !length_app, !length_insert. cbn [length].
  rewrite <- !app_assoc. cbn [app].
  rewrite !Nat.add_0_r, !Nat.add_1_r.
  do 2 f_equal. lia.
Qed.

(** The registry after the answer to a connection request, in any state. *)
Lemma answer_connect_registry call fileUri creds extensionTimer serviceTimer promise result s :
  calls s !! call
    = Some (InFlight (AwaitConnect fileUri creds extensionTimer serviceTimer promise)) →
  ∃ s' new,
    step (Answer call (ConnectionResponse result)) s = Some s' ∧
    calls s' = <[call := Completed]> (calls s) ++ new ∧
    _connections s' =
      if String.eqb (Contracts.connectionId result) ""
      then _connections s
      else <[fileUri := mkConnectionInfo (Contracts.connectionId result) creds]>
             (_connections s).
Proof.
  intros Hcall. erewrite step_answer; [| done | reflexivity].
  set (sb := exec _ _).
  destruct (startsConnects_runMicrotasks sb) as (Hc & _ & _ & (new & Hnew & _) & _).
  exists (runMicrotasks sb), new. split; [done|]. rewrite Hnew, Hc. subst sb.
  unfold exec.
  destruct (String.eqb_spec (Contracts.connectionId result) "") as [Hid|Hid].
  - rewrite (connectResponse_failure _ _ _ _ _ _ _ Hid).
    match goal with |- context [Runtime.reject ?p ?x] =>
      destruct (sameWorld_reject p x) as (Hr1 & _ & Hr2 & _) end.
    unfold exec in Hr1, Hr2. by rewrite Hr1, Hr2.
  - rewrite (connectResponse_success _ _ _ _ _ _ _ Hid).
    match goal with |- context [Runtime.resolve ?p ?v ?x] =>
      destruct (sameWorld_resolve p v x) as (Hr1 & _ & Hr2 & _) end.
    unfold exec in Hr1, Hr2. by rewrite Hr1, Hr2.
Qed.

(** The registry after the answer to a disconnect request, in any state. *)
Lemma answer_disconnect_registry call fileUri promise result s :
  calls s !! call = Some (InFlight (AwaitDisconnect fileUri promise)) →
  ∃ s' new,
    step (Answer call (DisconnectResponse result)) s = Some s' ∧
    calls s' = <[call := Completed]> (calls s) ++ new ∧
    _connections s' = delete fileUri (_connections s).
Proof.
  intros Hcall. erewrite step_answer; [| done | reflexivity].
  set (sb := exec _ _).
  destruct (startsConnects_runMicrotasks sb) as (Hc & _ & _ & (new & Hnew & _) & _).
  exists (runMicrotasks sb), new. split; [done|]. rewrite Hnew, Hc. subst sb.
  unfold exec. rewrite disconnectResponse_eq.
  match goal with |- context [Runtime.resolve ?p ?v ?x] =>
    destruct (sameWorld_resolve p v x) as (Hr1 & _ & Hr2 & _) end.
  unfold exec in Hr1, Hr2. by rewrite Hr1, Hr2.
Qed.

Lemma lookup_other_call (cs new : list CallState) call other c :
  other ≠ call →
  cs !! other = Some c →
  (<[call := Completed]> cs ++ new) !! other = Some c.
Proof.
  intros Hne Hc. apply lookup_app_l_Some. by rewrite list_lookup_insert_ne.
Qed.

Lemma step_onNewConnection s :
  microtasks s = [] →
  step (Invoke Cmd_onNewConnection) s
  = Some (mkState (_connections s) (activeTextEditorUri s)
      (promises s ++ [Pending []])
      (calls s ++ [InFlight (AwaitConnectionPick (activeTextEditorUri s)
                               (length (promises s)))])
      []
      (log s ++
         (if String.eqb (activeTextEditorUri s) ""
          then [Utils_showInfoMsg Constants.msgOpenSqlFile] else []) ++
         [UI_showConnections (length (calls s))])
      (hrtime s) (clockReads s)).
Proof.
  intros Hq. cbn [step invoke]. unfold onNewConnection. run_m.
  destruct (String.eqb (activeTextEditorUri s) ""); run_m;
    rewrite runMicrotasks_quiescent by done; rewrite Hq.
  - by rewrite <- app_assoc.
  - done.
Qed.

(** The user picks a connection for a resource that is not connected: the
    connect request leaves in the same turn. *)
Lemma connection_picked fileUri outer creds call s :
  microtasks s = [] →
  _connections s !! fileUri = None →
  calls s !! call = Some (InFlight (AwaitConnectionPick fileUri outer)) →
  step (Answer call (CredentialsPicked (Some creds))) s
  = Some (mkState (_connections s) (activeTextEditorUri s)
      (promises s ++ [Fulfilled true; Pending [ThenResolveTrue outer]])
      (<[call := Completed]> (calls s) ++
         [InFlight (AwaitConnect fileUri creds
                      (Timer.mk (clockAfter s 0) None) (Timer.mk (clockAfter s 1) None)
                      (S (length (promises s))))])
      []
      (log s ++
         [StatusView_connecting fileUri creds;
          Client_sendRequest (length (calls s))
            (Contracts.ConnectionRequest (connectParamsOf fileUri creds))])
      (hrtime s) (clockReads s + 2)).
Proof.
  intros Hq Hin Hcall.
  erewrite step_answer; [| done | reflexivity]. f_equal.
  unfold connectionPicked, exec, bind.
  rewrite disconnect_not_connected by done. simpl_state.
  unfold Runtime.then_ at 1. simpl_state. rewrite lookup_snoc. simpl_state.
  erewrite runMicrotasks_cons; [|simpl_state; by rewrite Hq].
  simpl_state. cbn [runReaction]. unfold exec, bind, ret. rewrite connect_eq.
  simpl_state. unfold Runtime.then_.  simpl_state.
  rewrite !length_app. cbn [length].
  replace (length (promises s) + 1) with (length (promises s ++ [Fulfilled true]))
    by (rewrite length_app; done).
  rewrite lookup_snoc. simpl_state. rewrite insert_snoc.
  rewrite runMicrotasks_quiescent by done.
  unfold connectCallback, clockAfter. simpl_state.
  rewrite !length_app, !length_insert. cbn [length].
  rewrite <- !app_assoc. cbn [app].
  rewrite !Nat.add_0_r, !Nat.add_1_r.
  do 2 f_equal. lia.
Qed.

End Steps.

(** ** Changes that add nothing to the registry *)

Section Quiet.

Context {K : Constants.t}.

Lemma quiet_refl s : quiet s s.
Proof.
  split; [done|]. split; [exists []; by rewrite app_nil_r|]. intros. by left.
Qed.

Lemma quiet_trans s1 s2 s3 : quiet s1 s2 → quiet s2 s3 → quiet s1 s3.
Proof.
  intros (Hr1 & (e1 & He1) & Hc1) (Hr2 & (e2 & He2) & Hc2).
  split; [auto|]. split.
  - exists (e1 ++ e2). by rewrite He2, He1, app_assoc.
  - intros call fileUri creds t0 t1 p H3.
    destruct (Hc2 _ _ _ _ _ _ H3) as [H2|H2]; [|by right].
    destruct (Hc1 _ _ _ _ _ _ H2) as [H1|H1]; [by left|right].
    rewrite He2. apply elem_of_app. by left.
Qed.

Lemma quiet_sameWorld s s' : sameWorld s s' → quiet s s'.
Proof.
  intros (Hr & _ & Hc & Hl & _). split; [by rewrite Hr|].
  split; [exists []; by rewrite app_nil_r|]. intros. left. by rewrite <- Hc.
Qed.

Lemma quiet_startsConnects s s' : startsConnects s s' → quiet s s'.
Proof.
  intros (Hr & _ & _ & (new & Hnew & Hf) & (events & Hl & _)).
  split; [by rewrite Hr|]. split; [by exists events|].
  intros call fileUri creds t0 t1 p H. rewrite Hnew in H.
  apply lookup_app_Some in H as [H | [_ H]]; [by left|right].
  apply list_elem_of_lookup_2 in H.
  rewrite Forall_forall in Hf. destruct (Hf _ H) as (f & c & a & b & q & Heq & Hin).
  by simplify_eq.
Qed.

Lemma gentle_ret {A} (a : A) : gentle (ret a).
Proof. intros s. apply quiet_refl. Qed.

Lemma gentle_bind {A B} (m : M A) (k : A → M B) :
  gentle m → (∀ a, gentle (k a)) → gentle (bind m k).
Proof.
  intros Hm Hk s. unfold bind. specialize (Hm s).
  destruct (m s) as [a s1]. eapply quiet_trans; [exact Hm | apply Hk].
Qed.

Lemma gentle_gets {A} (f : State → A) : gentle (gets f).
Proof. intros s. apply quiet_refl. Qed.

Lemma gentle_when b (m : M unit) : gentle m → gentle (when b m).
Proof. destruct b; [done | intros _; apply gentle_ret]. Qed.

Lemma gentle_emit e : gentle (Runtime.emit e).
Proof.
  intros s. split; [done|]. split; [by eexists|]. intros. by left.
Qed.

Lemma gentle_newPromise : gentle Runtime.newPromise.
Proof. intros s. apply quiet_sameWorld. by repeat split. Qed.

Lemma gentle_readClock : gentle Runtime.readClock.
Proof.
  intros s. split; [done|]. split; [exists []; by rewrite app_nil_r|]. intros. by left.
Qed.

Lemma gentle_resolve p v : gentle (Runtime.resolve p v).
Proof. intros s. apply quiet_sameWorld, sameWorld_resolve. Qed.

Lemma gentle_reject p : gentle (Runtime.reject p).
Proof. intros s. apply quiet_sameWorld, sameWorld_reject. Qed.

Lemma gentle_then p r : gentle (Runtime.then_ p r).
Proof. intros s. apply quiet_sameWorld, sameWorld_then. Qed.

Lemma gentle_delete fileUri : gentle (modify (set_connections (delete fileUri))).
Proof.
  intros s. split.
  - intros f info H. cbn in H. apply lookup_delete_Some in H. tauto.
  - split; [exists []; by rewrite app_nil_r|]. intros. by left.
Qed.

Lemma gentle_await announce callback :
  notConnectCallback callback → gentle (Runtime.await announce callback).
Proof.
  intros Hn s. split; [done|]. split; [by eexists|].
  intros call fileUri creds t0 t1 p H. left. cbn in H.
  apply lookup_app_Some in H as [H | [_ H]]; [done|].
  apply list_lookup_singleton_Some in H as [_ H]. simplify_eq. done.
Qed.

Lemma gentle_connect fileUri creds : gentle (connect fileUri creds).
Proof. intros s. apply quiet_startsConnects, startsConnects_connect. Qed.

Lemma gentle_match_option {A B} (o : option A) (f : A → M B) (d : M B) :
  (∀ a, gentle (f a)) → gentle d → gentle (match o with Some a => f a | None => d end).
Proof. by destruct o. Qed.

End Quiet.

Ltac gentle_step :=
  lazymatch goal with
  | |- gentle (Runtime.await _ _) => apply gentle_await; exact I
  | |- gentle (connect _ _) => apply gentle_connect
  | |- gentle (bind _ _) => apply gentle_bind; [|intros ?]
  | |- gentle (when _ _) => apply gentle_when
  | |- gentle (ret _) => apply gentle_ret
  | |- gentle (gets _) => apply gentle_gets
  | |- gentle (Runtime.emit _) => apply gentle_emit
  | |- gentle Runtime.newPromise => apply gentle_newPromise
  | |- gentle Runtime.readClock => apply gentle_readClock
  | |- gentle (Runtime.resolve _ _) => apply gentle_resolve
  | |- gentle (Runtime.reject _) => apply gentle_reject
  | |- gentle (Runtime.then_ _ _) => apply gentle_then
  | |- gentle (modify (set_connections (delete _))) => apply gentle_delete
  | |- gentle (match _ with Some _ => _ | None => _ end) =>
      apply gentle_match_option; [intros ?|]
  end.

Ltac gentle :=
  unfold Client.sendRequest, StatusView.connecting, StatusView.connectSuccess,
    StatusView.connectError, StatusView.notConnected, Utils.showInfoMsg,
    Utils.showWarnMsg, Utils.showErrorMsg, Utils.getActiveTextEditorUri,
    Utils.newTimer, Utils.endTimer,
    ConnectionUI.showConnections, ConnectionUI.showDatabasesOnCurrentServer,
    ConnectionUI.createAndSaveProfile, ConnectionUI.removeProfile;
  repeat gentle_step.

Section QuietCode.

Context {K : Constants.t}.










End QuietCode.

(** ** The registry invariant *)

Section Invariant.

Context {K : Constants.t}.










End Invariant.

(** ** The promises of the connects in flight *)

Section PromisesOk.

Context {K : Constants.t}.

Lemma promisesOk_step qs s s' :
  promisesOk s → Forall (free s) qs →
  (∀ call f c e t p,
     calls s' !! call = Some (InFlight (AwaitConnect f c e t p)) →
     calls s !! call = Some (InFlight (AwaitConnect f c e t p))) →
  (∀ p reactions, promises s !! p = Some (Pending reactions) →
     p ∈ qs ∨ ∃ reactions', promises s' !! p = Some (Pending reactions')) →
  (∀ q, otherTarget s' q →
     otherTarget s q ∨ q ∈ qs ∨ (length (promises s) ≤ q ∧ q < length (promises s'))) →
  length (promises s) ≤ length (promises s') →
  promisesOk s' ∧ keepsFree s s'.
Proof.
  intros (I1 & I2 & I3 & I4) Hqs Hc Hp Ht Hl.
  rewrite Forall_forall in Hqs.
  assert (∀ p, connectPromise s' p → connectPromise s p) as Hcp.
  { intros p (call & f & c & e & t & H). exists call, f, c, e, t. eauto. }
  split; [split; [|split; [|split]]|].
  - intros call call' f c e t f' c' e' t' p H1 H2. eapply I1; eauto.
  - intros p Hp'. destruct (I2 p (Hcp p Hp')) as (rs & Hrs).
    destruct (Hp _ _ Hrs) as [Hin|H]; [|done].
    destruct (Hqs _ Hin) as [Hn _]. destruct Hn. auto.
  - intros q Hq Hcq. destruct (Ht q Hq) as [H | [H | [H _]]].
    + apply (I3 q H). auto.
    + destruct (Hqs _ H) as [Hn _]. destruct Hn. auto.
    + destruct (I2 q (Hcp q Hcq)) as (rs & Hrs).
      apply lookup_lt_Some in Hrs. lia.
  - intros q Hq. destruct (Ht q Hq) as [H | [H | [_ H]]].
    + specialize (I4 q H). lia.
    + destruct (Hqs _ H) as [_ Hlt]. lia.
    + done.
  - intros q [Hn Hlt]. split; [auto | lia].
Qed.

Lemma promisesOk_sameView s s' :
  promises s' = promises s → calls s' = calls s → microtasks s' = microtasks s →
  promisesOk s → promisesOk s' ∧ keepsFree s s'.
Proof.
  destruct s, s'. cbn. intros -> -> ->. intros H. split; [exact H | by intros q].
Qed.

Lemma keepsFree_trans s1 s2 s3 : keepsFree s1 s2 → keepsFree s2 s3 → keepsFree s1 s3.
Proof. intros H1 H2 q Hq. auto. Qed.

Lemma careful_ret {A} qs (a : A) : careful qs (ret a) (λ _, []).
Proof. intros s Hok Hqs. cbn. split; [done|]. split; [by intros q | constructor]. Qed.

Lemma careful_bind {A B} qs (m : M A) (k : A → M B) fresh fresh' :
  careful qs m fresh →
  (∀ a, careful (fresh a ++ qs) (k a) fresh') →
  careful qs (bind m k) fresh'.
Proof.
  intros Hm Hk s Hok Hqs. unfold bind.
  destruct (Hm s Hok Hqs) as (Hok1 & Hf1 & Hfresh).
  destruct (m s) as [a s1]. cbn [fst snd] in *.
  assert (Forall (free s1) (fresh a ++ qs)) as Hqs1.
  { apply Forall_app. split; [done|]. eapply Forall_impl; [exact Hqs | exact Hf1]. }
  destruct (Hk a s1 Hok1 Hqs1) as (Hok2 & Hf2 & Hfresh2).
  split; [done|]. split; [by eapply keepsFree_trans | done].
Qed.

(** Code that touches neither promises, calls nor the queue. *)
Lemma careful_neutral {A} qs (m : M A) :
  (∀ s, promises (snd (m s)) = promises s ∧ calls (snd (m s)) = calls s ∧
        microtasks (snd (m s)) = microtasks s) →
  careful qs m (λ _, []).
Proof.
  intros H s Hok Hqs. destruct (H s) as (H1 & H2 & H3).
  destruct (promisesOk_sameView s _ H1 H2 H3 Hok). split; [done|].
  split; [done | constructor].
Qed.

Lemma careful_gets {A} qs (f : State → A) : careful qs (gets f) (λ _, []).
Proof. by apply careful_neutral. Qed.

Lemma careful_emit qs e : careful qs (Runtime.emit e) (λ _, []).
Proof. by apply careful_neutral. Qed.

Lemma careful_readClock qs : careful qs Runtime.readClock (λ _, []).
Proof. by apply careful_neutral. Qed.

Lemma careful_connections qs f : careful qs (modify (set_connections f)) (λ _, []).
Proof. by apply careful_neutral. Qed.

Lemma careful_when qs b (m : M unit) :
  careful qs m (λ _, []) → careful qs (when b m) (λ _, []).
Proof. destruct b; [done | intros _; apply careful_ret]. Qed.

Lemma careful_match_option {A B} qs (o : option A) (f : A → M B) (d : M B) fresh :
  (∀ a, careful qs (f a) fresh) → careful qs d fresh →
  careful qs (match o with Some a => f a | None => d end) fresh.
Proof. by destruct o. Qed.

Lemma careful_newPromise qs : careful qs Runtime.newPromise (λ p, [p]).
Proof.
  intros s Hok Hqs. unfold Runtime.newPromise. cbn [fst snd].
  set (s' := set_promises _ s).
  assert (promisesOk s' ∧ keepsFree s s') as [Hok' Hfree].
  { apply (promisesOk_step [] s s' Hok); [constructor | done | | | ].
    - intros p rs Hp. right. exists rs. subst s'. cbn. by apply lookup_app_l_Some.
    - intros q [H | [H | (p & rs & r & Hp & Hr & Ht)]]; [by left; left | by left; right; left |].
      left. right. right. subst s'. cbn in Hp.
      apply lookup_app_Some in Hp as [Hp | [_ Hp]]; [by exists p, rs, r|].
      apply list_lookup_singleton_Some in Hp as [_ Hp]. simplify_eq.
      by apply elem_of_nil in Hr.
    - subst s'. cbn. rewrite length_app. lia. }
  split; [done|]. split; [done|]. apply Forall_singleton. split.
  - intros (call & f & c & e & t & Hc).
    destruct Hok as (_ & I2 & _).
    destruct (I2 (length (promises s))) as (rs & Hrs); [by exists call, f, c, e, t|].
    apply lookup_lt_Some in Hrs. lia.
  - subst s'. cbn. rewrite length_app. cbn. lia.
Qed.

Lemma careful_await qs announce callback :
  notConnectCallback callback →
  (∀ q, callbackTarget callback = Some q → q ∈ qs) →
  careful qs (Runtime.await announce callback) (λ _, []).
Proof.
  intros Hn Hq s Hok Hqs. cbn [fst].
  set (s' := snd _).
  assert (promises s' = promises s ∧ microtasks s' = microtasks s ∧
          calls s' = calls s ++ [InFlight callback]) as (Hp & Hm & Hc) by done.
  clearbody s'.
  assert (promisesOk s' ∧ keepsFree s s') as [Hok' Hfree].
  { apply (promisesOk_step qs s s' Hok Hqs).
    - intros call f c e t p H. rewrite Hc in H.
      apply lookup_app_Some in H as [H | [_ H]]; [done|].
      apply list_lookup_singleton_Some in H as [_ H]. simplify_eq. done.
    - intros p rs H. right. exists rs. by rewrite Hp.
    - intros q [(call & cb & H & Hncb & Ht) | [(r & Hr & Ht) | (p & rs & r & Hpp & Hr & Ht)]].
      + rewrite Hc in H. apply lookup_app_Some in H as [H | [_ H]].
        * left. left. by exists call, cb.
        * apply list_lookup_singleton_Some in H as [_ H]. simplify_eq. right. left. auto.
      + left. right. left. exists r. by rewrite <- Hm.
      + left. right. right. exists p, rs, r. by rewrite <- Hp.
    - rewrite Hp. lia. }
  split; [done|]. split; [done | constructor].
Qed.

Lemma careful_resolve qs q v : q ∈ qs → careful qs (Runtime.resolve q v) (λ _, []).
Proof.
  intros Hq s Hok Hqs. unfold Runtime.resolve. cbn [fst].
  destruct (promises s !! q) as [[rs| |]|] eqn:Hpq; cbn [snd];
    try (split; [done|]; split; [by intros ? | constructor]).
  set (s' := set_microtasks _ _).
  assert (promisesOk s' ∧ keepsFree s s') as [Hok' Hfree].
  { apply (promisesOk_step qs s s' Hok Hqs); [done | | | ].
    - intros p rs' Hp. destruct (decide (p = q)) as [->|Hne]; [by left|].
      right. exists rs'. subst s'. cbn. by rewrite list_lookup_insert_ne.
    - intros x [H | [(r & Hr & Ht) | (p & rs' & r & Hpp & Hr & Ht)]]; [by left; left | |].
      + left. right. subst s'. cbn in Hr. apply elem_of_app in Hr as [Hr|Hr].
        * left. by exists r.
        * right. by exists q, rs, r.
      + left. right. right. subst s'. cbn in Hpp.
        destruct (decide (p = q)) as [->|Hne].
        * apply list_lookup_insert_Some in Hpp as [(_ & ? & _) | (? & _)]; done.
        * rewrite list_lookup_insert_ne in Hpp by done. by exists p, rs', r.
    - subst s'. cbn. by rewrite length_insert. }
  split; [done|]. split; [done | constructor].
Qed.

Lemma careful_reject qs q : q ∈ qs → careful qs (Runtime.reject q) (λ _, []).
Proof.
  intros Hq s Hok Hqs. unfold Runtime.reject. cbn [fst].
  destruct (promises s !! q) as [[rs| |]|] eqn:Hpq; cbn [snd];
    try (split; [done|]; split; [by intros ? | constructor]).
  set (s' := set_promises _ _).
  assert (promisesOk s' ∧ keepsFree s s') as [Hok' Hfree].
  { apply (promisesOk_step qs s s' Hok Hqs); [done | | | ].
    - intros p rs' Hp. destruct (decide (p = q)) as [->|Hne]; [by left|].
      right. exists rs'. subst s'. cbn. by rewrite list_lookup_insert_ne.
    - intros x [H | [H | (p & rs' & r & Hpp & Hr & Ht)]];
        [by left; left | by left; right; left |].
      left. right. right. subst s'. cbn in Hpp.
      destruct (decide (p = q)) as [->|Hne].
      * apply list_lookup_insert_Some in Hpp as [(_ & ? & _) | (? & _)]; done.
      * rewrite list_lookup_insert_ne in Hpp by done. by exists p, rs', r.
    - subst s'. cbn. by rewrite length_insert. }
  split; [done|]. split; [done | constructor].
Qed.

Lemma careful_then qs p r :
  (∀ q, reactionTarget r = Some q → q ∈ qs) →
  careful qs (Runtime.then_ p r) (λ _, []).
Proof.
  intros Hq s Hok Hqs. unfold Runtime.then_. cbn [fst].
  destruct (promises s !! p) as [[rs| |]|] eqn:Hpp; cbn [snd];
    try (split; [done|]; split; [by intros ? | constructor]).
  - set (s' := set_promises _ _).
    assert (promisesOk s' ∧ keepsFree s s') as [Hok' Hfree].
    { apply (promisesOk_step qs s s' Hok Hqs); [done | | | ].
      - intros p' rs' Hp. right. subst s'. cbn.
        destruct (decide (p' = p)) as [->|Hne].
        + eexists. apply list_lookup_insert_eq. by apply lookup_lt_Some in Hp.
        + exists rs'. by rewrite list_lookup_insert_ne.
      - intros x [H | [H | (p' & rs' & r' & Hp' & Hr & Ht)]];
          [by left; left | by left; right; left |].
        subst s'. cbn in Hp'. destruct (decide (p' = p)) as [->|Hne].
        + apply list_lookup_insert_Some in Hp' as [(_ & Heq & _) | (? & _)]; [|done].
          simplify_eq. apply elem_of_app in Hr as [Hr|Hr].
          * left. right. right. by exists p, rs, r'.
          * apply list_elem_of_singleton in Hr as ->. right. left. auto.
        + rewrite list_lookup_insert_ne in Hp' by done.
          left. right. right. by exists p', rs', r'.
      - subst s'. cbn. by rewrite length_insert. }
    split; [done|]. split; [done | constructor].
  - set (s' := set_microtasks _ _).
    assert (promisesOk s' ∧ keepsFree s s') as [Hok' Hfree].
    { apply (promisesOk_step qs s s' Hok Hqs); [done | | | done].
      - intros p' rs' Hp. right. by exists rs'.
      - intros x [H | [(r' & Hr & Ht) | H]]; [by left; left | | by left; right; right].
        subst s'. cbn in Hr. apply elem_of_app in Hr as [Hr|Hr].
        + left. right. left. by exists r'.
        + apply list_elem_of_singleton in Hr as ->. right. left. auto. }
    split; [done|]. split; [done | constructor].
Qed.

Lemma careful_connect qs fileUri creds : careful qs (connect fileUri creds) (λ _, []).
Proof.
  intros s (I1 & I2 & I3 & I4) Hqs. rewrite connect_eq. cbn [fst snd].
  set (s' := mkState _ _ _ _ _ _ _ _).
  assert (∀ call f c e t p,
            calls s' !! call = Some (InFlight (AwaitConnect f c e t p)) →
            calls s !! call = Some (InFlight (AwaitConnect f c e t p)) ∨
            (call = length (calls s) ∧ p = length (promises s))) as Hcalls.
  { intros call f c e t p H. subst s'. cbn in H.
    apply lookup_app_Some in H as [H | [Hl H]]; [by left|].
    apply list_lookup_singleton_Some in H as [Hi H]. unfold connectCallback in H.
    simplify_eq. right. split; [lia | done]. }
  assert (∀ p, connectPromise s' p → connectPromise s p ∨ p = length (promises s)) as Hcp.
  { intros p (call & f & c & e & t & H).
    destruct (Hcalls _ _ _ _ _ _ H) as [H' | [_ ->]]; [left | by right].
    by exists call, f, c, e, t. }
  assert (∀ p, connectPromise s p → p < length (promises s)) as Hlt.
  { intros p Hp. destruct (I2 p Hp) as (rs & Hrs). by apply lookup_lt_Some in Hrs. }
  assert (∀ q, otherTarget s' q → otherTarget s q) as Hot.
  { intros q [(call & cb & H & Hncb & Ht) | [H | (p & rs & r & Hp & Hr & Ht)]].
    - left. subst s'. cbn in H. apply lookup_app_Some in H as [H | [_ H]].
      + by exists call, cb.
      + apply list_lookup_singleton_Some in H as [_ H]. simplify_eq. done.
    - by right; left.
    - right. right. subst s'. cbn in Hp.
      apply lookup_app_Some in Hp as [Hp | [_ Hp]]; [by exists p, rs, r|].
      apply list_lookup_singleton_Some in Hp as [_ Hp]. simplify_eq.
      by apply elem_of_nil in Hr. }
  assert (length (promises s') = S (length (promises s))) as Hlen.
  { subst s'. cbn. rewrite length_app. cbn. lia. }
  split; [split; [|split; [|split]]|split].
  - intros call call' f c e t f' c' e' t' p H1 H2.
    destruct (Hcalls _ _ _ _ _ _ H1) as [H1' | [-> ->]];
      destruct (Hcalls _ _ _ _ _ _ H2) as [H2' | [-> Hp2]]; try done.
    + by eapply I1.
    + subst p. assert (length (promises s) < length (promises s)); [|lia].
      apply Hlt. by exists call, f, c, e, t.
    + assert (length (promises s) < length (promises s)); [|lia].
      apply Hlt. by exists call', f', c', e', t'.
  - intros p Hp. destruct (Hcp p Hp) as [Hp' | ->].
    + destruct (I2 p Hp') as (rs & Hrs). exists rs. subst s'. cbn.
      by apply lookup_app_l_Some.
    + exists []. subst s'. cbn. apply lookup_snoc.
  - intros q Hq Hcq. apply Hot in Hq. destruct (Hcp q Hcq) as [Hc | ->].
    + by apply (I3 q).
    + specialize (I4 _ Hq). lia.
  - intros q Hq. apply Hot in Hq. specialize (I4 _ Hq). lia.
  - intros q [Hn Hl]. split; [|lia]. intros Hc. destruct (Hcp q Hc) as [Hc' | ->]; [done | lia].
  - constructor.
Qed.

(** Marking a call as answered frees the promise of its callback. *)
Lemma promisesOk_completed call callback s :
  calls s !! call = Some (InFlight callback) →
  promisesOk s →
  let s' := set_calls (<[call := Completed]>) s in
  promisesOk s' ∧ keepsFree s s' ∧ ∀ q, callbackTarget callback = Some q → free s' q.
Proof.
  intros Hcall Hok s'.
  assert (∀ c x, calls s' !! c = Some (InFlight x) →
                 c ≠ call ∧ calls s !! c = Some (InFlight x)) as Hcalls.
  { intros c x H. subst s'. cbn in H. destruct (decide (c = call)) as [->|Hne].
    - apply list_lookup_insert_Some in H as [(_ & ? & _) | (? & _)]; done.
    - by rewrite list_lookup_insert_ne in H. }
  assert (promisesOk s' ∧ keepsFree s s') as [Hok' Hfree].
  { apply (promisesOk_step [] s s' Hok); [constructor | | | | done].
    - intros c f cr e t p H. by apply Hcalls in H as [_ H].
    - intros p rs H. right. by exists rs.
    - intros q [(c & cb & H & Hn & Ht) | [H | H]];
        [| by left; right; left | by left; right; right].
      left. left. apply Hcalls in H as [_ H]. by exists c, cb. }
  split; [done|]. split; [done|].
  intros q Ht. destruct Hok as (I1 & I2 & I3 & I4). split.
  - intros (c & f & cr & e & t & H). apply Hcalls in H as [Hne H].
    destruct callback; cbn in Ht; simplify_eq;
      try (apply (I3 q); [left; eexists _, _; split; [exact Hcall | by split]
                         | by exists c, f, cr, e, t]).
    by specialize (I1 _ _ _ _ _ _ _ _ _ _ _ H Hcall).
  - destruct callback; cbn in Ht; simplify_eq;
      try (apply I4; left; eexists _, _; split; [exact Hcall | by split]).
    destruct (I2 q) as (rs & Hrs); [by eexists _, _, _, _, _|].
    by apply lookup_lt_Some in Hrs.
Qed.

(** Taking a callback off the queue frees the promise it settles. *)
Lemma promisesOk_popped r rest s :
  microtasks s = r :: rest →
  promisesOk s →
  let s' := set_microtasks (λ _, rest) s in
  promisesOk s' ∧ keepsFree s s' ∧ ∀ q, reactionTarget r = Some q → free s' q.
Proof.
  intros Hm Hok s'.
  assert (promisesOk s' ∧ keepsFree s s') as [Hok' Hfree].
  { apply (promisesOk_step [] s s' Hok); [constructor | done | | | done].
    - intros p rs H. right. by exists rs.
    - intros q [H | [(r' & Hr & Ht) | H]]; [by left; left | | by left; right; right].
      left. right. left. exists r'. split; [|done]. rewrite Hm.
      apply elem_of_cons. by right. }
  split; [done|]. split; [done|].
  intros q Ht. apply Hfree. destruct Hok as (I1 & I2 & I3 & I4).
  assert (otherTarget s q) as Hq.
  { right. left. exists r. split; [|done]. rewrite Hm. apply elem_of_cons. by left. }
  split; [by apply I3 | by apply I4].
Qed.

Lemma careful_getDuration qs t : careful qs (Utils.getDuration t) (λ _, []).
Proof.
  unfold Utils.getDuration. destruct (Timer.endTime t); [apply careful_ret|].
  eapply careful_bind; [apply careful_readClock | intros now; apply careful_ret].
Qed.

End PromisesOk.

Ltac careful_side := cbn; intros; simplify_eq; try set_solver.

Ltac careful_step :=
  lazymatch goal with
  | |- careful _ (Runtime.await _ _) _ => apply careful_await; [exact I | careful_side]
  | |- careful _ (connect _ _) _ => apply careful_connect
  | |- careful _ (Utils.getDuration _) _ => apply careful_getDuration
  | |- careful _ (bind _ _) _ => eapply careful_bind; [|intros ?]
  | |- careful _ (when _ _) _ => apply careful_when
  | |- careful _ (ret _) _ => apply careful_ret
  | |- careful _ (gets _) _ => apply careful_gets
  | |- careful _ (Runtime.emit _) _ => apply careful_emit
  | |- careful _ Runtime.newPromise _ => apply careful_newPromise
  | |- careful _ Runtime.readClock _ => apply careful_readClock
  | |- careful _ (Runtime.resolve _ _) _ => apply careful_resolve; careful_side
  | |- careful _ (Runtime.reject _) _ => apply careful_reject; careful_side
  | |- careful _ (Runtime.then_ _ _) _ => apply careful_then; careful_side
  | |- careful _ (modify (set_connections _)) _ => apply careful_connections
  | |- careful _ (match _ with Some _ => _ | None => _ end) _ =>
      apply careful_match_option; [intros ?|]
  end.

Ltac careful :=
  unfold Client.sendRequest, StatusView.connecting, StatusView.connectSuccess,
    StatusView.connectError, StatusView.notConnected, Utils.showInfoMsg,
    Utils.showWarnMsg, Utils.showErrorMsg, Utils.getActiveTextEditorUri,
    Utils.newTimer, Utils.endTimer,
    ConnectionUI.showConnections, ConnectionUI.showDatabasesOnCurrentServer,
    ConnectionUI.createAndSaveProfile, ConnectionUI.removeProfile;
  repeat careful_step.

Section CarefulCode.

Context {K : Constants.t}.

Lemma careful_disconnect qs fileUri : careful qs (disconnect fileUri) (λ _, []).
Proof. unfold disconnect. careful. Qed.

Lemma careful_disconnectResponse qs fileUri promise result :
  promise ∈ qs → careful qs (disconnectResponse fileUri promise result) (λ _, []).
Proof. intros Hp. unfold disconnectResponse. careful. Qed.

Lemma careful_connectResponse qs fileUri creds extensionTimer serviceTimer promise result :
  promise ∈ qs →
  careful qs (connectResponse fileUri creds extensionTimer serviceTimer promise result)
    (λ _, []).
Proof.
  intros Hp. unfold connectResponse.
  eapply careful_bind; [careful | intros t].
  destruct (negb _); careful.
Qed.

Lemma careful_databasePicked qs fileUri picked :
  careful qs (databasePicked fileUri picked) (λ _, []).
Proof.
  unfold databasePicked. destruct picked; [|apply careful_ret].
  eapply careful_bind; [apply careful_disconnect | intros p]. careful.
Qed.

Lemma careful_connectionPicked qs fileUri outer picked :
  outer ∈ qs → careful qs (connectionPicked fileUri outer picked) (λ _, []).
Proof.
  intros Hp. unfold connectionPicked. destruct picked; [|apply careful_ret].
  eapply careful_bind; [apply careful_disconnect | intros p]. careful.
Qed.

Lemma careful_profileCreated qs promise profile :
  promise ∈ qs → careful qs (profileCreated promise profile) (λ _, []).
Proof. intros Hp. unfold profileCreated. destruct profile; careful. Qed.

Lemma careful_invoke c : careful [] (invoke c) (λ _, []).
Proof.
  destruct c; cbn [invoke];
    unfold onChooseDatabase, onDisconnect, onNewConnection, onCreateProfile,
      onRemoveProfile, Utils.getActiveTextEditorUri, Utils.showInfoMsg,
      Utils.showWarnMsg, ConnectionUI.showConnections,
      ConnectionUI.showDatabasesOnCurrentServer, ConnectionUI.createAndSaveProfile,
      ConnectionUI.removeProfile;
    repeat first [ apply careful_disconnect | careful_step ].
Qed.

Lemma careful_runReaction qs r :
  (∀ q, reactionTarget r = Some q → q ∈ qs) →
  careful qs (runReaction r) (λ _, []).
Proof.
  intros Hq. destruct r as [f c | f c outer | outer]; cbn [runReaction].
  - careful.
  - specialize (Hq outer eq_refl). careful.
  - specialize (Hq outer eq_refl). careful.
Qed.

End CarefulCode.

Section PromisesInvariant.

Context {K : Constants.t}.

Lemma promisesOk_drain fuel s : promisesOk s → promisesOk (drain fuel s).
Proof.
  revert s. induction fuel as [|fuel IH]; intros s Hok; cbn [drain]; [done|].
  destruct (microtasks s) as [|r rest] eqn:Hm; [done|]. apply IH.
  destruct (promisesOk_popped r rest s Hm Hok) as (Hok' & _ & Hfree).
  set (qs := match reactionTarget r with Some q => [q] | None => [] end).
  destruct (careful_runReaction qs r) with (s := set_microtasks (λ _, rest) s)
    as (H & _); [| done | | done].
  - intros q Hq. subst qs. rewrite Hq. set_solver.
  - subst qs. destruct (reactionTarget r) as [q|] eqn:Hq; [|constructor].
    apply Forall_singleton. auto.
Qed.

(** Every turn of the event loop keeps the promises of the connects in
    flight pending. *)
Lemma step_promisesOk i s s' : promisesOk s → step i s = Some s' → promisesOk s'.
Proof.
  intros Hok Hstep. destruct i as [c | call answer | uri]; cbn [step] in Hstep.
  - injection Hstep as <-. apply promisesOk_drain.
    by destruct (careful_invoke c s Hok) as (H & _).
  - destruct (calls s !! call) as [[callback|]|] eqn:Hcall; try done.
    destruct (respond callback answer) as [body|] eqn:Hr; [|done].
    injection Hstep as <-. apply promisesOk_drain.
    destruct (promisesOk_completed call callback s Hcall Hok) as (Hok' & _ & Hfree).
    set (qs := match callbackTarget callback with Some q => [q] | None => [] end).
    assert (Forall (free (set_calls (<[call := Completed]>) s)) qs) as Hqs.
    { subst qs. destruct (callbackTarget callback) as [q|] eqn:Hq; [|constructor].
      apply Forall_singleton. auto. }
    assert (careful qs body (λ _, [])) as Hbody.
    { subst qs. destruct callback, answer; try done; cbn in Hr; injection Hr as <-; cbn.
      - apply careful_connectResponse. set_solver.
      - apply careful_disconnectResponse. set_solver.
      - apply careful_databasePicked.
      - apply careful_connectionPicked. set_solver.
      - apply careful_profileCreated. set_solver.
      - apply careful_resolve. set_solver. }
    by destruct (Hbody _ Hok' Hqs) as (H & _).
  - injection Hstep as <-. by apply (promisesOk_sameView s).
Qed.

Lemma step_idle i s s' : microtasks s = [] → step i s = Some s' → microtasks s' = [].
Proof.
  intros Hq Hstep. destruct i as [c | call answer | uri]; cbn [step] in Hstep.
  - injection Hstep as <-. apply runMicrotasks_empty.
  - destruct (calls s !! call) as [[callback|]|]; try done.
    destruct (respond callback answer); [|done].
    injection Hstep as <-. apply runMicrotasks_empty.
  - by injection Hstep as <-.
Qed.

Lemma init_promisesOk clock uri : promisesOk (init clock uri).
Proof.
  assert (∀ p, ¬ connectPromise (init clock uri) p) as Hc.
  { intros p (call & f & c & e & t & H). cbn in H. by rewrite lookup_nil in H. }
  assert (∀ q, ¬ otherTarget (init clock uri) q) as Ho.
  { intros q [(call & cb & H & _) | [(r & Hr & _) | (p & rs & r & H & _)]]; cbn in *.
    - by rewrite lookup_nil in H.
    - by apply elem_of_nil in Hr.
    - by rewrite lookup_nil in H. }
  split; [|split; [|split]].
  - intros call call' f c e t f' c' e' t' p H. cbn in H. by rewrite lookup_nil in H.
  - intros p Hp. by destruct (Hc p).
  - intros q Hq. by destruct (Ho q).
  - intros q Hq. by destruct (Ho q).
Qed.

(** In every state the controller can reach the microtask queue is empty
    and the promise of every connect in flight is pending. *)
Lemma run_idle_promisesOk inputs s s' :
  run inputs s = Some s' →
  microtasks s = [] → promisesOk s →
  microtasks s' = [] ∧ promisesOk s'.
Proof.
  revert s. induction inputs as [|i inputs IH]; intros s Hrun Hq Hok.
  - cbn in Hrun. by injection Hrun as <-.
  - cbn [run] in Hrun. destruct (step i s) as [s1|] eqn:Hstep; [|done].
    apply (IH s1 Hrun); [by eapply step_idle | by eapply step_promisesOk].
Qed.

Lemma reachable_pending clock uri inputs s call fileUri creds extensionTimer serviceTimer
    promise :
  run inputs (init clock uri) = Some s →
  calls s !! call
    = Some (InFlight (AwaitConnect fileUri creds extensionTimer serviceTimer promise)) →
  microtasks s = [] ∧ ∃ reactions, promises s !! promise = Some (Pending reactions).
Proof.
  intros Hrun Hcall.
  destruct (run_idle_promisesOk _ _ _ Hrun eq_refl (init_promisesOk _ _))
    as (Hq & _ & I2 & _).
  split; [done|]. apply I2. by exists call, fileUri, creds, extensionTimer, serviceTimer.
Qed.

(** A connection request in flight is answered without a connection id,
    in an idle state where its promise is pending. *)
Lemma answer_connect_failure call fileUri creds extensionTimer serviceTimer promise
    reactions result s :
  microtasks s = [] →
  calls s !! call
    = Some (InFlight (AwaitConnect fileUri creds extensionTimer serviceTimer promise)) →
  promises s !! promise = Some (Pending reactions) →
  Contracts.connectionId result = "" →
  step (Answer call (ConnectionResponse result)) s
  = Some (mkState (_connections s) (activeTextEditorUri s)
      (<[promise := Rejected None]> (promises s))
      (<[call := Completed]> (calls s))
      []
      (log s ++ [Utils_showErrorMsg
                   (String.append Constants.msgError (Contracts.messages result));
                 StatusView_connectError fileUri creds (Contracts.messages result)])
      (hrtime s) (S (clockReads s))).
Proof.
  intros Hq Hcall Hp Hid.
  erewrite step_answer; [| done | reflexivity]. f_equal.
  unfold exec. rewrite (connectResponse_failure _ _ _ _ _ _ _ Hid).
  unfold Runtime.reject. simpl_state. rewrite Hp. simpl_state.
  rewrite runMicrotasks_quiescent by done. by rewrite Hq.
Qed.

Lemma telemetryOf_app l k : telemetryOf (l ++ k) = telemetryOf l ++ telemetryOf k.
Proof. apply omap_app. Qed.

Lemma telemetryOf_connectStarts events :
  Forall (λ e, isConnectStart e = true) events → telemetryOf events = [].
Proof.
  induction 1 as [|e events He _ IH]; [done|]. unfold telemetryOf in *. cbn.
  rewrite IH. by destruct e.
Qed.

(** A connection request in flight is answered with a connection id, in
    any state: the telemetry of that turn. *)
Lemma answer_connect_telemetry call fileUri creds extensionTimer serviceTimer promise
    result s :
  calls s !! call
    = Some (InFlight (AwaitConnect fileUri creds extensionTimer serviceTimer promise)) →
  Contracts.connectionId result ≠ "" →
  ∃ s',
    step (Answer call (ConnectionResponse result)) s = Some s' ∧
    telemetryOf (log s') =
      telemetryOf (log s) ++
      [("DatabaseConnected",
        Telemetry.mkMeasures
          ((clockAfter s 1 - Timer.startTime extensionTimer)
           - (clockAfter s 0 - Timer.startTime serviceTimer))%Z
          (clockAfter s 0 - Timer.startTime serviceTimer)%Z)].
Proof.
  intros Hcall Hid. erewrite step_answer; [| done | reflexivity].
  eexists. split; [done|].
  set (sb := exec _ _).
  destruct (startsConnects_runMicrotasks sb) as (_ & _ & _ & _ & (events & -> & Hev)).
  rewrite telemetryOf_app, (telemetryOf_connectStarts _ Hev), app_nil_r.
  subst sb. unfold exec. rewrite (connectResponse_success _ _ _ _ _ _ _ Hid).
  match goal with |- context [Runtime.resolve ?p ?v ?x] =>
    destruct (sameWorld_resolve p v x) as (_ & _ & _ & Hl & _) end.
  unfold exec in Hl. rewrite Hl. cbn [log]. simpl_state.
  rewrite telemetryOf_app. unfold clockAfter.
  by rewrite Nat.add_0_r, Nat.add_1_r.
Qed.

End PromisesInvariant.

(** * The claims *)

Section Claims.

Context {K : Constants.t}.

(** C1, as amended. Take the callback that [connect], called in state
    [s0], leaves in flight, and let it wait in any state [s]. The call of
    [connect] itself sends no telemetry. The answer with a connection id
    sends exactly one event. Its [serviceConnectionTime] is the time of the
    protocol round trip: from the second clock reading of the call (service
    timer) to the first reading of the callback. Its
    [extensionConnectionTime] is the time of the whole connect, from the
    first reading of the call (extension timer) to the second reading of the
    callback, minus that round trip; it is not the time of the whole
    connect. *)
Theorem connect_telemetry fileUri creds s0 call result s :
  calls s !! call = Some (InFlight (connectCallback fileUri creds s0)) →
  Contracts.connectionId result ≠ "" →
  telemetryOf (log (snd (connect fileUri creds s0))) = telemetryOf (log s0) ∧
  ∃ s',
    step (Answer call (ConnectionResponse result)) s = Some s' ∧
    telemetryOf (log s') =
      telemetryOf (log s) ++
      [("DatabaseConnected",
        Telemetry.mkMeasures
          ((clockAfter s 1 - clockAfter s0 0) - (clockAfter s 0 - clockAfter s0 1))%Z
          (clockAfter s 0 - clockAfter s0 1)%Z)].
Proof.
  intros Hcall Hid. split.
  - rewrite connect_eq. cbn [snd log]. rewrite telemetryOf_app. cbn. apply app_nil_r.
  - destruct (answer_connect_telemetry _ _ _ _ _ _ result _ Hcall Hid) as (s' & Hs & Ht).
    exists s'. split; [done|]. rewrite Ht. cbn [Timer.startTime]. unfold clockAfter.
    by rewrite !Nat.add_0_r, !Nat.add_1_r.
Qed.

(** C4. In every state the controller can reach, when a connect in flight
    is answered without a connection id, the connect fails: its promise is
    rejected, the registry is not touched (so a resource that was not
    connected is still not connected), and the messages of the answer are
    shown as an error, after the fixed prefix [msgError], and handed
    unchanged to the status view. *)
Theorem connect_refused s call fileUri creds extensionTimer serviceTimer promise result :
  reachable s →
  calls s !! call
    = Some (InFlight (AwaitConnect fileUri creds extensionTimer serviceTimer promise)) →
  Contracts.connectionId result = "" →
  ∃ s',
    step (Answer call (ConnectionResponse result)) s = Some s' ∧
    (∃ reason, promises s' !! promise = Some (Rejected reason)) ∧
    _connections s' = _connections s ∧
    (isConnected fileUri s = false → isConnected fileUri s' = false) ∧
    log s' = log s ++
      [Utils_showErrorMsg (String.append Constants.msgError (Contracts.messages result));
       StatusView_connectError fileUri creds (Contracts.messages result)].
Proof.
  intros (clock & uri & inputs & Hrun) Hcall Hid.
  destruct (reachable_pending _ _ _ _ _ _ _ _ _ _ Hrun Hcall) as (Hq & reactions & Hp).
  eexists. split; [by eapply answer_connect_failure|]. cbn.
  split; [|done]. exists None. apply list_lookup_insert_eq. by apply lookup_lt_Some in Hp.
Qed.



(** C10. In every state the controller can reach, the promise that
    [connect] returned for a connect in flight is pending; when the connect
    is answered without a connection id that promise is rejected with no
    reason, and the messages of the answer go to the error display and to
    the status view and nowhere else. *)
Theorem connect_rejects_without_reason s call fileUri creds extensionTimer serviceTimer
    promise result :
  reachable s →
  calls s !! call
    = Some (InFlight (AwaitConnect fileUri creds extensionTimer serviceTimer promise)) →
  Contracts.connectionId result = "" →
  ∃ reactions s',
    promises s !! promise = Some (Pending reactions) ∧
    step (Answer call (ConnectionResponse result)) s = Some s' ∧
    promises s' !! promise = Some (Rejected None) ∧
    log s' = log s ++
      [Utils_showErrorMsg (String.append Constants.msgError (Contracts.messages result));
       StatusView_connectError fileUri creds (Contracts.messages result)].
Proof.
  intros (clock & uri & inputs & Hrun) Hcall Hid.
  destruct (reachable_pending _ _ _ _ _ _ _ _ _ _ Hrun Hcall) as (Hq & reactions & Hp).
  eexists _, _. split; [done|]. split; [by eapply answer_connect_failure|]. cbn.
  split; [|done]. apply list_lookup_insert_eq. by apply lookup_lt_Some in Hp.
Qed.

(** C2, what the code does. [disconnect] of a connected resource fulfils
    its promise with [true] as soon as the request is sent: at that point the
    entry is still in the registry and the status view was not told. The
    answer of the service then removes the entry and tells the status view,
    and the promise keeps the value [true] whatever the answer says. *)
Theorem disconnect_resolves_before_answer fileUri info outcome s :
  microtasks s = [] →
  _connections s !! fileUri = Some info →
  let '(promise, s1) := disconnect fileUri s in
  promises s1 !! promise = Some (Fulfilled true) ∧
  _connections s1 !! fileUri = Some info ∧
  log s1 = log s ++
    [Client_sendRequest (length (calls s))
       (Contracts.DisconnectRequest (Contracts.DisconnectParams.mk fileUri))] ∧
  ∃ s2,
    step (Answer (length (calls s)) (DisconnectResponse outcome)) s1 = Some s2 ∧
    promises s2 !! promise = Some (Fulfilled true) ∧
    _connections s2 !! fileUri = None ∧
    log s2 = log s1 ++ [StatusView_notConnected fileUri].
Proof.
  intros Hq Hin.
  pose proof (disconnect_answered fileUri info outcome s Hq Hin) as Hrun.
  cbn [run] in Hrun. rewrite (step_disconnect _ _ Hq) in Hrun.
  rewrite (disconnect_connected _ _ _ Hin) in *. cbn [snd] in *.
  destruct (step _ _) as [s2|] eqn:Hstep; [|done]. injection Hrun as ->.
  cbn. split; [apply lookup_snoc|]. split; [done|]. split; [done|].
  eexists. split; [done|]. cbn. split; [apply lookup_snoc|].
  split; [apply lookup_delete_eq | by rewrite <- app_assoc].
Qed.

(** C3, as amended. The controller does not serialize the operations on a
    resource: a connect starts at once, its request leaves while other
    requests of the same resource wait for their answers. When a connect
    and a disconnect of one resource are in flight together, the registry
    ends as the answer handled last leaves it: no entry when the disconnect
    is answered last, the entry of the connect (its connection id and
    credentials) when the connect is answered last. *)
Theorem overlapping_requests_follow_answer_order
    fileUri creds creds' extensionTimer serviceTimer connectPromise disconnectPromise
    connectCall disconnectCall result outcome s :
  microtasks s = [] →
  calls s !! connectCall
    = Some (InFlight (AwaitConnect fileUri creds extensionTimer serviceTimer connectPromise)) →
  calls s !! disconnectCall = Some (InFlight (AwaitDisconnect fileUri disconnectPromise)) →
  Contracts.connectionId result ≠ "" →
  (∃ s', step (Invoke (Cmd_connect fileUri creds')) s = Some s' ∧
         calls s' = calls s ++ [InFlight (connectCallback fileUri creds' s)]) ∧
  (∃ s', run [Answer connectCall (ConnectionResponse result);
              Answer disconnectCall (DisconnectResponse outcome)] s = Some s' ∧
         _connections s' !! fileUri = None) ∧
  (∃ s', run [Answer disconnectCall (DisconnectResponse outcome);
              Answer connectCall (ConnectionResponse result)] s = Some s' ∧
         _connections s' !! fileUri
           = Some (mkConnectionInfo (Contracts.connectionId result) creds)).
Proof.
  intros Hq Hc Hd Hid.
  assert (connectCall ≠ disconnectCall) as Hne by (intros ->; congruence).
  split; [|split].
  - eexists. split; [by apply step_connect|]. by rewrite connect_eq.
  - destruct (answer_connect_registry _ _ _ _ _ _ result _ Hc) as (s1 & new1 & Hs1 & Hc1 & _).
    assert (calls s1 !! disconnectCall = Some (InFlight (AwaitDisconnect fileUri disconnectPromise)))
      as Hd1 by (rewrite Hc1; by apply lookup_other_call).
    destruct (answer_disconnect_registry _ _ _ outcome _ Hd1) as (s2 & new2 & Hs2 & _ & Hr2).
    exists s2. cbn [run]. rewrite Hs1, Hs2. split; [done|].
    rewrite Hr2. apply lookup_delete_eq.
  - destruct (answer_disconnect_registry _ _ _ outcome _ Hd) as (s1 & new1 & Hs1 & Hc1 & _).
    assert (calls s1 !! connectCall
            = Some (InFlight (AwaitConnect fileUri creds extensionTimer serviceTimer
                                connectPromise)))
      as Hc1' by (rewrite Hc1; by apply lookup_other_call).
    destruct (answer_connect_registry _ _ _ _ _ _ result _ Hc1') as (s2 & new2 & Hs2 & _ & Hr2).
    exists s2. cbn [run]. rewrite Hs1, Hs2. split; [done|].
    rewrite Hr2. destruct (String.eqb_spec (Contracts.connectionId result) ""); [done|].
    apply lookup_insert_eq.
Qed.

(** C8. Choosing a database for the connected resource of the active editor
    sends the disconnect request and then the connect request with the
    credentials the user picked. If that connect is answered without a
    connection id, then once both answers are handled, in either order and
    whatever the answer to the disconnect, the resource has no registry
    entry. *)
Theorem choose_database_connect_refused info creds result outcome s :
  microtasks s = [] →
  _connections s !! activeTextEditorUri s = Some info →
  Contracts.connectionId result = "" →
  let fileUri := activeTextEditorUri s in
  let prompt := length (calls s) in
  ∃ s1,
    run [Invoke Cmd_onChooseDatabase;
         Answer prompt (CredentialsPicked (Some creds))] s = Some s1 ∧
    log s1 = log s ++
      [UI_showDatabasesOnCurrentServer prompt (credentials info);
       Client_sendRequest (prompt + 1)
         (Contracts.DisconnectRequest (Contracts.DisconnectParams.mk fileUri));
       StatusView_connecting fileUri creds;
       Client_sendRequest (prompt + 2)
         (Contracts.ConnectionRequest (connectParamsOf fileUri creds))] ∧
    (∃ s2, run [Answer (prompt + 1) (DisconnectResponse outcome);
                Answer (prompt + 2) (ConnectionResponse result)] s1 = Some s2 ∧
           _connections s2 !! fileUri = None) ∧
    (∃ s2, run [Answer (prompt + 2) (ConnectionResponse result);
                Answer (prompt + 1) (DisconnectResponse outcome)] s1 = Some s2 ∧
           _connections s2 !! fileUri = None).
Proof.
  intros Hq Hin Hid fileUri prompt.
  eexists. split.
  { cbn [run]. rewrite (step_onChooseDatabase info) by done.
    erewrite (database_picked fileUri info creds prompt);
      [done | done | done | cbn [calls]; apply lookup_snoc]. }
  simpl_state. split.
  { rewrite !length_app. cbn [length]. rewrite <- !app_assoc. cbn [app].
    subst prompt. rewrite !Nat.add_1_r.
    by replace (length (calls s) + 2) with (S (S (length (calls s)))) by lia. }
  set (s1 := mkState _ _ _ _ _ _ _ _).
  assert (calls s1 !! (prompt + 1)
          = Some (InFlight (AwaitDisconnect fileUri (length (promises s))))) as Hd.
  { subst s1 prompt. cbn [calls]. rewrite insert_snoc, <- app_assoc.
    by rewrite lookup_after. }
  assert (∃ t0 t1 p, calls s1 !! (prompt + 2)
          = Some (InFlight (AwaitConnect fileUri creds t0 t1 p))) as (t0 & t1 & p & Hc).
  { subst s1 prompt. cbn [calls]. rewrite insert_snoc, <- app_assoc.
    rewrite lookup_after. by eexists _, _, _. }
  assert (_connections s1 = _connections s) as Hr by done.
  clearbody s1. split.
  - destruct (answer_disconnect_registry _ _ _ outcome _ Hd) as (s2 & new2 & Hs2 & Hc2 & Hr2).
    assert (calls s2 !! (prompt + 2) = Some (InFlight (AwaitConnect fileUri creds t0 t1 p)))
      as Hc' by (rewrite Hc2; apply lookup_other_call; [lia | done]).
    destruct (answer_connect_registry _ _ _ _ _ _ result _ Hc') as (s3 & new3 & Hs3 & _ & Hr3).
    exists s3. cbn [run]. rewrite Hs2, Hs3. split; [done|].
    rewrite Hr3, Hid. cbn. rewrite Hr2. apply lookup_delete_eq.
  - destruct (answer_connect_registry _ _ _ _ _ _ result _ Hc) as (s2 & new2 & Hs2 & Hc2 & Hr2).
    assert (calls s2 !! (prompt + 1)
            = Some (InFlight (AwaitDisconnect fileUri (length (promises s)))))
      as Hd' by (rewrite Hc2; apply lookup_other_call; [lia | done]).
    destruct (answer_disconnect_registry _ _ _ outcome _ Hd') as (s3 & new3 & Hs3 & _ & Hr3).
    exists s3. cbn [run]. rewrite Hs2, Hs3. split; [done|].
    rewrite Hr3. apply lookup_delete_eq.
Qed.

(** C7, what the code does. With no open editor ([fileUri] is empty)
    [onNewConnection] shows the message and goes on: it offers the
    picklist, and when the user picks a connection it sends a connection
    request for the empty resource; an answer with a connection id then
    puts an entry for the empty resource into the registry. *)
Theorem new_connection_without_editor creds result s :
  microtasks s = [] →
  activeTextEditorUri s = "" →
  _connections s !! "" = None →
  Contracts.connectionId result ≠ "" →
  let prompt := length (calls s) in
  ∃ s2 s3,
    run [Invoke Cmd_onNewConnection;
         Answer prompt (CredentialsPicked (Some creds))] s = Some s2 ∧
    log s2 = log s ++
      [Utils_showInfoMsg Constants.msgOpenSqlFile;
       UI_showConnections prompt;
       StatusView_connecting "" creds;
       Client_sendRequest (prompt + 1)
         (Contracts.ConnectionRequest (connectParamsOf "" creds))] ∧
    step (Answer (prompt + 1) (ConnectionResponse result)) s2 = Some s3 ∧
    _connections s3 !! ""
      = Some (mkConnectionInfo (Contracts.connectionId result) creds).
Proof.
  intros Hq Huri Hin Hid prompt. subst prompt.
  assert (∃ s2,
    run [Invoke Cmd_onNewConnection;
         Answer (length (calls s)) (CredentialsPicked (Some creds))] s = Some s2 ∧
    log s2 = log s ++
      [Utils_showInfoMsg Constants.msgOpenSqlFile;
       UI_showConnections (length (calls s));
       StatusView_connecting "" creds;
       Client_sendRequest (length (calls s) + 1)
         (Contracts.ConnectionRequest (connectParamsOf "" creds))] ∧
    ∃ t0 t1 p, calls s2 !! (length (calls s) + 1)
               = Some (InFlight (AwaitConnect "" creds t0 t1 p)))
    as (s2 & Hrun & Hlog & t0 & t1 & p & Hc).
  { eexists. split.
    { cbn [run]. rewrite step_onNewConnection by done. rewrite Huri.
      cbn [String.eqb app].
      erewrite (connection_picked "" _ creds (length (calls s)));
        [reflexivity | done | done | cbn [calls]; apply lookup_snoc]. }
    simpl_state. split.
    - rewrite <- !app_assoc. cbn [app]. rewrite length_app. by cbn.
    - rewrite insert_snoc.
      replace (length (calls s) + 1) with (length (calls s ++ [Completed]) + 0)
        by (rewrite length_app; cbn; lia).
      rewrite lookup_after. by eexists _, _, _. }
  destruct (answer_connect_registry _ _ _ _ _ _ result _ Hc) as (s3 & new3 & Hs3 & _ & Hr3).
  exists s2, s3. repeat split; try done.
  rewrite Hr3.
  destruct (String.eqb_spec (Contracts.connectionId result) ""); [done|].
  apply lookup_insert_eq.
Qed.


End Claims.

(** * The claims on concrete runs *)

Lemma connectSent_reachable : @reachable Sample.constants Sample.connectSent.
Proof.
  exists Sample.clock, Sample.uri, [Invoke (Cmd_connect Sample.uri Sample.creds1)].
  vm_compute. reflexivity.
Defined.

Lemma afterConnect_reachable : @reachable Sample.constants Sample.afterConnect.
Proof.
  exists Sample.clock, Sample.uri,
    [Invoke (Cmd_connect Sample.uri Sample.creds1);
     Answer 0 (ConnectionResponse Sample.connected)].
  vm_compute. reflexivity.
Defined.

(** C1, the claim as stated fails. With clock readings 0, 10, 40 and 90 the
    whole connect takes 90 and the round trip 30; the event carries 60 as
    [extensionConnectionTime], not 90. *)
Lemma telemetry_is_not_total_time :
  ∃ s',
    @run Sample.constants
      [Invoke (Cmd_connect Sample.uri Sample.creds1);
       Answer 0 (ConnectionResponse Sample.connected)] Sample.start = Some s' ∧
    telemetryOf (log s') = [("DatabaseConnected", Telemetry.mkMeasures 60 30)] ∧
    (clockAfter Sample.start 3 - clockAfter Sample.start 0 = 90)%Z ∧
    (clockAfter Sample.start 2 - clockAfter Sample.start 1 = 30)%Z ∧
    telemetryOf (log s') ≠
      [("DatabaseConnected",
        Telemetry.mkMeasures
          (clockAfter Sample.start 3 - clockAfter Sample.start 0)
          (clockAfter Sample.start 2 - clockAfter Sample.start 1))].
Proof.
  eexists. split; [reflexivity|]. split; [reflexivity|].
  split; [reflexivity|]. split; [reflexivity|]. vm_compute. discriminate.
Qed.

Lemma connect_telemetry_witness :
  calls Sample.connectSent !! 0
    = Some (InFlight (connectCallback Sample.uri Sample.creds1 Sample.start)) ∧
  Contracts.connectionId Sample.connected ≠ "" ∧
  telemetryOf (log (snd (connect Sample.uri Sample.creds1 Sample.start)))
    = telemetryOf (log Sample.start) ∧
  ∃ s',
    @step Sample.constants (Answer 0 (ConnectionResponse Sample.connected))
      Sample.connectSent = Some s' ∧
    telemetryOf (log s') =
      telemetryOf (log Sample.connectSent) ++
      [("DatabaseConnected",
        Telemetry.mkMeasures
          ((clockAfter Sample.connectSent 1 - clockAfter Sample.start 0)
           - (clockAfter Sample.connectSent 0 - clockAfter Sample.start 1))%Z
          (clockAfter Sample.connectSent 0 - clockAfter Sample.start 1)%Z)].
Proof.
  split; [reflexivity|]. split; [discriminate|].
  apply (@connect_telemetry Sample.constants Sample.uri Sample.creds1 Sample.start 0
           Sample.connected Sample.connectSent); [reflexivity | discriminate].
Defined.

(** C2 on a run: the service answers [false], the promise of [disconnect]
    was fulfilled with [true] before the answer and stays so. *)
Lemma disconnect_resolves_before_answer_witness :
  microtasks Sample.afterConnect = [] ∧
  _connections Sample.afterConnect !! Sample.uri
    = Some (mkConnectionInfo "abc" Sample.creds1) ∧
  let '(promise, s1) := @disconnect Sample.uri Sample.afterConnect in
  promises s1 !! promise = Some (Fulfilled true) ∧
  _connections s1 !! Sample.uri = Some (mkConnectionInfo "abc" Sample.creds1) ∧
  log s1 = log Sample.afterConnect ++
    [Client_sendRequest (length (calls Sample.afterConnect))
       (Contracts.DisconnectRequest (Contracts.DisconnectParams.mk Sample.uri))] ∧
  ∃ s2,
    @step Sample.constants
      (Answer (length (calls Sample.afterConnect)) (DisconnectResponse false)) s1
      = Some s2 ∧
    promises s2 !! promise = Some (Fulfilled true) ∧
    _connections s2 !! Sample.uri = None ∧
    log s2 = log s1 ++ [StatusView_notConnected Sample.uri].
Proof.
  split; [reflexivity|]. split; [reflexivity|].
  apply (@disconnect_resolves_before_answer Sample.constants Sample.uri
           (mkConnectionInfo "abc" Sample.creds1) false Sample.afterConnect);
    reflexivity.
Defined.

(** C3, the claim as stated fails: a connect begins while the disconnect
    of the same resource is in flight, and two requests of the resource wait
    for their answers. *)
Lemma connect_begins_during_disconnect :
  ∃ s s',
    @run Sample.constants
      [Invoke (Cmd_connect Sample.uri Sample.creds1);
       Answer 0 (ConnectionResponse Sample.connected);
       Invoke (Cmd_disconnect Sample.uri)] Sample.start = Some s ∧
    requestsInFlight Sample.uri s = 1 ∧
    @step Sample.constants (Invoke (Cmd_connect Sample.uri Sample.creds2)) s = Some s' ∧
    calls s' =
      [Completed;
       InFlight (AwaitDisconnect Sample.uri 1);
       InFlight (AwaitConnect Sample.uri Sample.creds2
                   (Timer.mk 160 None) (Timer.mk 250 None) 2)] ∧
    requestsInFlight Sample.uri s' = 2.
Proof.
  eexists _, _. split; [reflexivity|]. split; [reflexivity|].
  split; [reflexivity|]. split; reflexivity.
Qed.

Lemma overlapping_requests_follow_answer_order_witness :
  microtasks Sample.overlapping = [] ∧
  calls Sample.overlapping !! 2
    = Some (InFlight (AwaitConnect Sample.uri Sample.creds2
                        (Timer.mk 160 None) (Timer.mk 250 None) 2)) ∧
  calls Sample.overlapping !! 1 = Some (InFlight (AwaitDisconnect Sample.uri 1)) ∧
  Contracts.connectionId Sample.connected ≠ "" ∧
  (∃ s', @step Sample.constants (Invoke (Cmd_connect Sample.uri Sample.creds1))
           Sample.overlapping = Some s' ∧
         calls s' = calls Sample.overlapping ++
           [InFlight (connectCallback Sample.uri Sample.creds1 Sample.overlapping)]) ∧
  (∃ s', @run Sample.constants
           [Answer 2 (ConnectionResponse Sample.connected);
            Answer 1 (DisconnectResponse true)] Sample.overlapping = Some s' ∧
         _connections s' !! Sample.uri = None) ∧
  (∃ s', @run Sample.constants
           [Answer 1 (DisconnectResponse true);
            Answer 2 (ConnectionResponse Sample.connected)] Sample.overlapping = Some s' ∧
         _connections s' !! Sample.uri
           = Some (mkConnectionInfo (Contracts.connectionId Sample.connected)
                     Sample.creds2)).
Proof.
  split; [reflexivity|]. split; [reflexivity|]. split; [reflexivity|].
  split; [discriminate|].
  apply (@overlapping_requests_follow_answer_order Sample.constants Sample.uri
           Sample.creds2 Sample.creds1 (Timer.mk 160 None) (Timer.mk 250 None) 2 1 2 1
           Sample.connected true Sample.overlapping);
    [reflexivity | reflexivity | reflexivity | discriminate].
Defined.

Lemma connect_refused_witness :
  @reachable Sample.constants Sample.connectSent ∧
  calls Sample.connectSent !! 0
    = Some (InFlight (AwaitConnect Sample.uri Sample.creds1
                        (Timer.mk 0 None) (Timer.mk 10 None) 0)) ∧
  Contracts.connectionId Sample.refused = "" ∧
  ∃ s',
    @step Sample.constants (Answer 0 (ConnectionResponse Sample.refused))
      Sample.connectSent = Some s' ∧
    (∃ reason, promises s' !! 0 = Some (Rejected reason)) ∧
    _connections s' = _connections Sample.connectSent ∧
    (isConnected Sample.uri Sample.connectSent = false →
     isConnected Sample.uri s' = false) ∧
    log s' = log Sample.connectSent ++
      [Utils_showErrorMsg
         (String.append (@Constants.msgError Sample.constants)
            (Contracts.messages Sample.refused));
       StatusView_connectError Sample.uri Sample.creds1
         (Contracts.messages Sample.refused)].
Proof.
  split; [apply connectSent_reachable|].
  split; [reflexivity|]. split; [reflexivity|].
  apply (@connect_refused Sample.constants Sample.connectSent 0
           Sample.uri Sample.creds1 (Timer.mk 0 None) (Timer.mk 10 None) 0
           Sample.refused);
    [apply connectSent_reachable | reflexivity | reflexivity].
Defined.



(** C7 on a run: no editor is open, the user picks a connection, the
    service answers with a connection id. *)
Lemma new_connection_without_editor_witness :
  microtasks Sample.noEditor = [] ∧
  activeTextEditorUri Sample.noEditor = "" ∧
  _connections Sample.noEditor !! "" = None ∧
  Contracts.connectionId Sample.connected ≠ "" ∧
  ∃ s2 s3,
    @run Sample.constants
      [Invoke Cmd_onNewConnection;
       Answer (length (calls Sample.noEditor)) (CredentialsPicked (Some Sample.creds1))]
      Sample.noEditor = Some s2 ∧
    log s2 = log Sample.noEditor ++
      [Utils_showInfoMsg (@Constants.msgOpenSqlFile Sample.constants);
       UI_showConnections (length (calls Sample.noEditor));
       StatusView_connecting "" Sample.creds1;
       Client_sendRequest (length (calls Sample.noEditor) + 1)
         (Contracts.ConnectionRequest (connectParamsOf "" Sample.creds1))] ∧
    @step Sample.constants
      (Answer (length (calls Sample.noEditor) + 1) (ConnectionResponse Sample.connected))
      s2 = Some s3 ∧
    _connections s3 !! ""
      = Some (mkConnectionInfo (Contracts.connectionId Sample.connected) Sample.creds1).
Proof.
  split; [reflexivity|]. split; [reflexivity|]. split; [reflexivity|].
  split; [discriminate|].
  apply (@new_connection_without_editor Sample.constants Sample.creds1 Sample.connected
           Sample.noEditor); [reflexivity | reflexivity | reflexivity | discriminate].
Defined.

Lemma choose_database_connect_refused_witness :
  microtasks Sample.afterConnect = [] ∧
  _connections Sample.afterConnect !! activeTextEditorUri Sample.afterConnect
    = Some (mkConnectionInfo "abc" Sample.creds1) ∧
  Contracts.connectionId Sample.refused = "" ∧
  ∃ s1,
    @run Sample.constants
      [Invoke Cmd_onChooseDatabase; Answer 1 (CredentialsPicked (Some Sample.creds2))]
      Sample.afterConnect = Some s1 ∧
    log s1 = log Sample.afterConnect ++
      [UI_showDatabasesOnCurrentServer 1 Sample.creds1;
       Client_sendRequest 2
         (Contracts.DisconnectRequest (Contracts.DisconnectParams.mk Sample.uri));
       StatusView_connecting Sample.uri Sample.creds2;
       Client_sendRequest 3
         (Contracts.ConnectionRequest (connectParamsOf Sample.uri Sample.creds2))] ∧
    (∃ s2, @run Sample.constants
             [Answer 2 (DisconnectResponse true);
              Answer 3 (ConnectionResponse Sample.refused)] s1 = Some s2 ∧
           _connections s2 !! Sample.uri = None) ∧
    (∃ s2, @run Sample.constants
             [Answer 3 (ConnectionResponse Sample.refused);
              Answer 2 (DisconnectResponse true)] s1 = Some s2 ∧
           _connections s2 !! Sample.uri = None).
Proof.
  split; [reflexivity|]. split; [reflexivity|]. split; [reflexivity|].
  apply (@choose_database_connect_refused Sample.constants
           (mkConnectionInfo "abc" Sample.creds1) Sample.creds2 Sample.refused true
           Sample.afterConnect); reflexivity.
Defined.


Lemma connect_rejects_without_reason_witness :
  @reachable Sample.constants Sample.connectSent ∧
  calls Sample.connectSent !! 0
    = Some (InFlight (AwaitConnect Sample.uri Sample.creds1
                        (Timer.mk 0 None) (Timer.mk 10 None) 0)) ∧
  Contracts.connectionId Sample.refused = "" ∧
  ∃ reactions s',
    promises Sample.connectSent !! 0 = Some (Pending reactions) ∧
    @step Sample.constants (Answer 0 (ConnectionResponse Sample.refused))
      Sample.connectSent = Some s' ∧
    promises s' !! 0 = Some (Rejected None) ∧
    log s' = log Sample.connectSent ++
      [Utils_showErrorMsg
         (String.append (@Constants.msgError Sample.constants)
            (Contracts.messages Sample.refused));
       StatusView_connectError Sample.uri Sample.creds1
         (Contracts.messages Sample.refused)].
Proof.
  split; [apply connectSent_reachable|].
  split; [reflexivity|]. split; [reflexivity|].
  apply (@connect_rejects_without_reason Sample.constants Sample.connectSent 0
           Sample.uri Sample.creds1 (Timer.mk 0 None) (Timer.mk 10 None) 0
           Sample.refused);
    [apply connectSent_reachable | reflexivity | reflexivity].
Defined.
(** * Further properties of the controller *)

(** ** Code that stays within a relation *)

Section Respects.

Context (R : State → State → Prop) `{!PreOrder R}.

Lemma respects_ret {A} (a : A) : respects R (ret a).
Proof. intros s. cbn. reflexivity. Qed.

Lemma respects_gets {A} (f : State → A) : respects R (gets f).
Proof. intros s. cbn. reflexivity. Qed.

Lemma respects_bind {A B} (m : M A) (k : A → M B) :
  respects R m → (∀ a, respects R (k a)) → respects R (bind m k).
Proof.
  intros Hm Hk s. unfold bind. specialize (Hm s).
  destruct (m s) as [a s1]. cbn [snd] in *. etransitivity; [exact Hm | apply Hk].
Qed.

Lemma respects_when b (m : M unit) : respects R m → respects R (when b m).
Proof. destruct b; [done | intros _; apply respects_ret]. Qed.

Lemma respects_match_option {A B} (o : option A) (f : A → M B) (d : M B) :
  (∀ a, respects R (f a)) → respects R d →
  respects R (match o with Some a => f a | None => d end).
Proof. by destruct o. Qed.

Lemma respects_if {A} (b : bool) (m m' : M A) :
  respects R m → respects R m' → respects R (if b then m else m').
Proof. by destruct b. Qed.

End Respects.

(** Unfold the controller's code to the operations of the runtime. *)
Ltac to_runtime :=
  unfold onChooseDatabase, onDisconnect, onNewConnection, onCreateProfile,
    onRemoveProfile, databasePicked, connectionPicked, profileCreated,
    disconnectResponse, connect, disconnect, Client.sendRequest, StatusView.connecting,
    StatusView.connectSuccess, StatusView.connectError, StatusView.notConnected,
    Utils.showInfoMsg, Utils.showWarnMsg, Utils.showErrorMsg,
    Utils.getActiveTextEditorUri, Utils.newTimer, Utils.endTimer,
    ConnectionUI.showConnections, ConnectionUI.showDatabasesOnCurrentServer,
    ConnectionUI.createAndSaveProfile, ConnectionUI.removeProfile, Runtime.await.

(** Walk through code; [prim] closes the goals about runtime operations. *)
Ltac respects_with prim :=
  repeat lazymatch goal with
  | |- PreOrder _ => typeclasses eauto
  | |- respects _ (bind _ _) => apply respects_bind; [| |intros ?]
  | |- respects _ (ret _) => apply respects_ret
  | |- respects _ (gets _) => apply respects_gets
  | |- respects _ (when _ _) => apply respects_when
  | |- respects _ (match _ with Some _ => _ | None => _ end) =>
      apply respects_match_option; [intros ?|]
  | |- respects _ (if _ then _ else _) => apply respects_if
  | |- respects _ _ => prim
  end.

Section Inert.

Context {K : Constants.t}.

#[local] Instance inert_preorder : PreOrder inert.
Proof.
  split.
  - intros s. split; [done|]. exists []. by rewrite app_nil_r.
  - intros s1 s2 s3 (Hr1 & e1 & He1 & Hf1) (Hr2 & e2 & He2 & Hf2).
    split; [congruence|]. exists (e1 ++ e2).
    split; [by rewrite He2, He1, app_assoc | by apply Forall_app].
Qed.

Lemma inert_same s s' :
  _connections s' = _connections s → log s' = log s → inert s s'.
Proof. intros Hr Hl. split; [done|]. exists []. by rewrite app_nil_r. Qed.

Lemma inert_sameWorld s s' : sameWorld s s' → inert s s'.
Proof. intros (Hr & _ & _ & Hl & _). by apply inert_same. Qed.

Lemma inert_startsConnects s s' : startsConnects s s' → inert s s'.
Proof.
  intros (Hr & _ & _ & _ & (events & Hl & Hf)). split; [done|]. exists events.
  split; [done|]. eapply Forall_impl; [exact Hf|]. intros e He. by destruct e.
Qed.

Lemma inert_emit e : sessionEvent e = false → respects inert (Runtime.emit e).
Proof.
  intros He s. split; [done|]. exists [e]. split; [done|]. by apply Forall_singleton.
Qed.

Lemma inert_calls f : respects inert (modify (set_calls f)).
Proof. intros s. by apply inert_same. Qed.

Lemma inert_newPromise : respects inert Runtime.newPromise.
Proof. intros s. by apply inert_same. Qed.

Lemma inert_readClock : respects inert Runtime.readClock.
Proof. intros s. by apply inert_same. Qed.

Lemma inert_resolve p v : respects inert (Runtime.resolve p v).
Proof. intros s. apply inert_sameWorld, sameWorld_resolve. Qed.

Lemma inert_reject p : respects inert (Runtime.reject p).
Proof. intros s. apply inert_sameWorld, sameWorld_reject. Qed.

Lemma inert_then p r : respects inert (Runtime.then_ p r).
Proof. intros s. apply inert_sameWorld, sameWorld_then. Qed.

End Inert.

Ltac inert_prim :=
  idtac; first
    [ apply inert_emit; reflexivity
    | apply inert_calls
    | apply inert_newPromise
    | apply inert_readClock
    | apply inert_resolve
    | apply inert_reject
    | apply inert_then ].

Section InertCode.

Context {K : Constants.t}.

Existing Instance inert_preorder.

(** No method of the controller touches the registry or tells the status
    view of a session while it runs: that is left to the callbacks of the
    protocol client. *)
Lemma inert_invoke c : respects inert (invoke c).
Proof. destruct c; cbn [invoke]; to_runtime; respects_with inert_prim. Qed.

Lemma inert_databasePicked fileUri picked : respects inert (databasePicked fileUri picked).
Proof. to_runtime. respects_with inert_prim. Qed.

Lemma inert_connectionPicked fileUri outer picked :
  respects inert (connectionPicked fileUri outer picked).
Proof. to_runtime. respects_with inert_prim. Qed.

Lemma inert_profileCreated promise profile : respects inert (profileCreated promise profile).
Proof. to_runtime. respects_with inert_prim. Qed.

Lemma inert_connectResponse_failure fileUri creds extensionTimer serviceTimer promise result :
  Contracts.connectionId result = "" →
  respects inert (connectResponse fileUri creds extensionTimer serviceTimer promise result).
Proof.
  intros Hid. unfold connectResponse. rewrite Hid. cbn [String.eqb negb].
  to_runtime. respects_with inert_prim.
Qed.

Lemma inert_runMicrotasks s : inert s (runMicrotasks s).
Proof. apply inert_startsConnects, startsConnects_runMicrotasks. Qed.

End InertCode.

(** ** What one turn of the event loop does to the registry *)

Section Turns.

Context {K : Constants.t}.

Existing Instance inert_preorder.

Lemma inert_completed call s : inert s (set_calls (<[call := Completed]>) s).
Proof. by apply inert_same. Qed.

Lemma inert_answer call callback answer body s :
  calls s !! call = Some (InFlight callback) →
  respond callback answer = Some body →
  respects inert body →
  ∃ s', step (Answer call answer) s = Some s' ∧ inert s s'.
Proof.
  intros Hcall Hr Hbody. erewrite step_answer by done. eexists. split; [done|].
  etransitivity; [apply inert_completed|].
  etransitivity; [apply Hbody | apply inert_runMicrotasks].
Qed.

(** The answer that carries a connection id. *)
Lemma answer_connect_connectedBy call fileUri creds extensionTimer serviceTimer promise
    result s :
  calls s !! call
    = Some (InFlight (AwaitConnect fileUri creds extensionTimer serviceTimer promise)) →
  Contracts.connectionId result ≠ "" →
  ∃ s', step (Answer call (ConnectionResponse result)) s = Some s' ∧
        connectedBy fileUri creds (Contracts.connectionId result) s s'.
Proof.
  intros Hcall Hid. erewrite step_answer; [| done | reflexivity].
  eexists. split; [done|].
  set (sb := exec _ _).
  destruct (inert_runMicrotasks sb) as (Hr & later & Hl & Hf).
  unfold connectedBy. rewrite Hr, Hl. subst sb. unfold exec.
  rewrite (connectResponse_success _ _ _ _ _ _ _ Hid).
  match goal with |- context [Runtime.resolve ?p ?v ?x] =>
    destruct (sameWorld_resolve p v x) as (Hr1 & _ & _ & Hl1 & _) end.
  unfold exec in Hr1, Hl1. rewrite Hr1, Hl1. simpl_state.
  split; [done|]. eexists _, later. split; [|done]. by rewrite <- app_assoc.
Qed.

(** The answer to a disconnect request. *)
Lemma answer_disconnect_disconnectedBy call fileUri promise result s :
  calls s !! call = Some (InFlight (AwaitDisconnect fileUri promise)) →
  ∃ s', step (Answer call (DisconnectResponse result)) s = Some s' ∧
        disconnectedBy fileUri s s'.
Proof.
  intros Hcall. erewrite step_answer; [| done | reflexivity].
  eexists. split; [done|].
  set (sb := exec _ _).
  destruct (inert_runMicrotasks sb) as (Hr & later & Hl & Hf).
  unfold disconnectedBy. rewrite Hr, Hl. subst sb. unfold exec.
  rewrite disconnectResponse_eq.
  match goal with |- context [Runtime.resolve ?p ?v ?x] =>
    destruct (sameWorld_resolve p v x) as (Hr1 & _ & _ & Hl1 & _) end.
  unfold exec in Hr1, Hl1. rewrite Hr1, Hl1. simpl_state.
  split; [done|]. exists later. split; [|done]. by rewrite <- app_assoc.
Qed.

(** Every turn is of one of three kinds. *)
Lemma step_shape i s s' :
  step i s = Some s' →
  inert s s' ∨
  (∃ call fileUri creds extensionTimer serviceTimer promise result,
     i = Answer call (ConnectionResponse result) ∧
     calls s !! call
       = Some (InFlight (AwaitConnect fileUri creds extensionTimer serviceTimer promise)) ∧
     Contracts.connectionId result ≠ "" ∧
     connectedBy fileUri creds (Contracts.connectionId result) s s') ∨
  (∃ call fileUri promise result,
     i = Answer call (DisconnectResponse result) ∧
     calls s !! call = Some (InFlight (AwaitDisconnect fileUri promise)) ∧
     disconnectedBy fileUri s s').
Proof.
  intros Hstep. destruct i as [c | call answer | uri].
  - left. cbn [step] in Hstep. injection Hstep as <-.
    etransitivity; [apply inert_invoke | apply inert_runMicrotasks].
  - pose proof Hstep as Hstep'. cbn [step] in Hstep'.
    destruct (calls s !! call) as [[callback|]|] eqn:Hcall; try done.
    destruct (respond callback answer) as [body|] eqn:Hr; [|done]. clear Hstep'.
    assert (respects inert body → inert s s') as Hinert.
    { intros Hb. destruct (inert_answer _ _ _ _ _ Hcall Hr Hb) as (s1 & Hs1 & Hi).
      congruence. }
    destruct callback, answer; try done; cbn in Hr; injection Hr as <-.
    + destruct (String.eqb_spec (Contracts.connectionId result) "") as [Hid|Hid].
      * left. by apply Hinert, inert_connectResponse_failure.
      * right. left.
        destruct (answer_connect_connectedBy _ _ _ _ _ _ result _ Hcall Hid)
          as (s1 & Hs1 & Hc).
        assert (s1 = s') as -> by congruence. by eexists _, _, _, _, _, _, _.
    + right. right.
      destruct (answer_disconnect_disconnectedBy _ _ _ result _ Hcall) as (s1 & Hs1 & Hd).
      assert (s1 = s') as -> by congruence. by eexists _, _, _, _.
    + left. apply Hinert, inert_databasePicked.
    + left. apply Hinert, inert_connectionPicked.
    + left. apply Hinert, inert_profileCreated.
    + left. apply Hinert, inert_resolve.
  - left. cbn [step] in Hstep. injection Hstep as <-. by apply inert_same.
Qed.

End Turns.

Section RegistryAndStatus.

Context {K : Constants.t}.

Lemma shownSession_app l k fileUri :
  shownSession (l ++ k) fileUri = foldl (shownUpdate fileUri) (shownSession l fileUri) k.
Proof. unfold shownSession. by rewrite foldl_app. Qed.

Lemma shown_inert fileUri shown events :
  Forall (λ e, sessionEvent e = false) events →
  foldl (shownUpdate fileUri) shown events = shown.
Proof.
  induction 1 as [|e events He _ IH]; [done|]. cbn [foldl]. rewrite <- IH at 2.
  f_equal. by destruct e.
Qed.




(** X1. While a method of the controller runs the registry is not changed:
    whatever the method and the state, every resource is connected after
    the call exactly if it was before. The registry changes in the callbacks
    of the protocol client only. *)
Theorem methods_leave_registry c s s' :
  step (Invoke c) s = Some s' →
  _connections s' = _connections s ∧ ∀ fileUri, isConnected fileUri s' = isConnected fileUri s.
Proof.
  intros Hstep.
  assert (_connections s' = _connections s) as Hr.
  { destruct (step_shape _ _ _ Hstep) as [[Hr _] | [H | H]]; [done | |].
    - by destruct H as (? & ? & ? & ? & ? & ? & ? & ? & _).
    - by destruct H as (? & ? & ? & ? & ? & _). }
  split; [done|]. intros fileUri. unfold isConnected. by rewrite Hr.
Qed.

(** X2. A turn of the event loop changes the registry entry of a resource
    only when it answers a protocol request (connect or disconnect) that was
    sent for that very resource. *)
Theorem entry_changes_with_own_answer i s s' fileUri :
  step i s = Some s' →
  _connections s' !! fileUri ≠ _connections s !! fileUri →
  ∃ call callback answer,
    i = Answer call answer ∧
    calls s !! call = Some (InFlight callback) ∧
    requestOwner (InFlight callback) = Some fileUri.
Proof.
  intros Hstep Hne.
  destruct (step_shape _ _ _ Hstep) as [[Hr _] | [H | H]].
  - by rewrite Hr in Hne.
  - destruct H as (call & f & c & e & t & p & result & -> & Hcall & _ & Hr & _).
    exists call, (AwaitConnect f c e t p), (ConnectionResponse result).
    split; [done|]. split; [done|]. cbn. f_equal.
    destruct (decide (f = fileUri)) as [|Hf]; [done|].
    rewrite Hr, lookup_insert_ne in Hne; done.
  - destruct H as (call & f & p & result & -> & Hcall & Hr & _).
    exists call, (AwaitDisconnect f p), (DisconnectResponse result).
    split; [done|]. split; [done|]. cbn. f_equal.
    destruct (decide (f = fileUri)) as [|Hf]; [done|].
    rewrite Hr, lookup_delete_ne in Hne; done.
Qed.

Lemma step_status_agrees i s s' :
  step i s = Some s' →
  (∀ fileUri, credentials <$> _connections s !! fileUri = shownSession (log s) fileUri) →
  ∀ fileUri, credentials <$> _connections s' !! fileUri = shownSession (log s') fileUri.
Proof.
  intros Hstep Hs fileUri.
  destruct (step_shape _ _ _ Hstep) as [(Hr & events & Hl & Hf) | [H | H]].
  - rewrite Hr, Hl, shownSession_app, (shown_inert _ _ _ Hf). apply Hs.
  - destruct H as (call & f & c & e & t & p & result & _ & _ & _ & Hr & m & later & Hl & Hf).
    rewrite Hr, Hl, shownSession_app. cbn [foldl]. rewrite (shown_inert _ _ _ Hf).
    cbn [shownUpdate]. destruct (String.eqb_spec f fileUri) as [->|Hne].
    + by rewrite lookup_insert_eq.
    + rewrite lookup_insert_ne by done. apply Hs.
  - destruct H as (call & f & p & result & _ & _ & Hr & later & Hl & Hf).
    rewrite Hr, Hl, shownSession_app. cbn [foldl]. rewrite (shown_inert _ _ _ Hf).
    cbn [shownUpdate]. destruct (String.eqb_spec f fileUri) as [->|Hne].
    + by rewrite lookup_delete_eq.
    + rewrite lookup_delete_ne by done. apply Hs.
Qed.

(** X3. The status view always knows the registry: in every state the
    controller can reach, a resource has an entry exactly if the last of
    the notifications [connectSuccess] and [notConnected] that the status
    view got for the resource is a [connectSuccess], and the entry holds
    the credentials of that notification. *)
Theorem status_view_agrees_with_registry s fileUri :
  reachable s →
  credentials <$> _connections s !! fileUri = shownSession (log s) fileUri.
Proof.
  intros (clock & uri & inputs & Hrun). revert fileUri.
  assert (∀ f, credentials <$> _connections (init clock uri) !! f
               = shownSession (log (init clock uri)) f) as Hinit.
  { intros f. cbn. by rewrite lookup_empty. }
  revert Hrun Hinit. generalize (init clock uri). clear clock uri.
  induction inputs as [|i inputs IH]; intros s0 Hrun Hs0.
  - cbn in Hrun. by injection Hrun as <-.
  - cbn [run] in Hrun. destruct (step i s0) as [s1|] eqn:Hstep; [|done].
    apply (IH s1 Hrun). by apply (step_status_agrees _ _ _ Hstep).
Qed.



End RegistryAndStatus.

(** ** Promises settle once *)

Section SettleOnce.

Context {K : Constants.t}.

#[local] Instance settledKept_preorder : PreOrder settledKept.
Proof.
  split.
  - by intros s p outcome.
  - intros s1 s2 s3 H1 H2 p outcome Hp Hn. eauto.
Qed.

Lemma settled_same s s' : promises s' = promises s → settledKept s s'.
Proof. intros Hp p outcome H _. by rewrite Hp. Qed.

Lemma settled_emit e : respects settledKept (Runtime.emit e).
Proof. intros s. by apply settled_same. Qed.

Lemma settled_calls f : respects settledKept (modify (set_calls f)).
Proof. intros s. by apply settled_same. Qed.

Lemma settled_connections f : respects settledKept (modify (set_connections f)).
Proof. intros s. by apply settled_same. Qed.

Lemma settled_readClock : respects settledKept Runtime.readClock.
Proof. intros s. by apply settled_same. Qed.

Lemma settled_newPromise : respects settledKept Runtime.newPromise.
Proof. intros s p outcome Hp _. cbn. by apply lookup_app_l_Some. Qed.

Lemma settled_resolve q v : respects settledKept (Runtime.resolve q v).
Proof.
  intros s p outcome Hp Hn. unfold Runtime.resolve.
  destruct (promises s !! q) as [[rs| |]|] eqn:Hq; try done. cbn.
  destruct (decide (p = q)) as [->|Hne]; [|by rewrite list_lookup_insert_ne].
  rewrite Hq in Hp. injection Hp as <-. by destruct (Hn rs).
Qed.

Lemma settled_reject q : respects settledKept (Runtime.reject q).
Proof.
  intros s p outcome Hp Hn. unfold Runtime.reject.
  destruct (promises s !! q) as [[rs| |]|] eqn:Hq; try done. cbn.
  destruct (decide (p = q)) as [->|Hne]; [|by rewrite list_lookup_insert_ne].
  rewrite Hq in Hp. injection Hp as <-. by destruct (Hn rs).
Qed.

Lemma settled_then q r : respects settledKept (Runtime.then_ q r).
Proof.
  intros s p outcome Hp Hn. unfold Runtime.then_.
  destruct (promises s !! q) as [[rs| |]|] eqn:Hq; try done. cbn.
  destruct (decide (p = q)) as [->|Hne]; [|by rewrite list_lookup_insert_ne].
  rewrite Hq in Hp. injection Hp as <-. by destruct (Hn rs).
Qed.

End SettleOnce.

Ltac settled_prim :=
  idtac; first
    [ apply settled_emit
    | apply settled_calls
    | apply settled_connections
    | apply settled_readClock
    | apply settled_newPromise
    | apply settled_resolve
    | apply settled_reject
    | apply settled_then ].

Section SettleOnceCode.

Context {K : Constants.t}.

Existing Instance settledKept_preorder.

Lemma settled_invoke c : respects settledKept (invoke c).
Proof. destruct c; cbn [invoke]; to_runtime; respects_with settled_prim. Qed.

Lemma settled_runReaction r : respects settledKept (runReaction r).
Proof. destruct r; cbn [runReaction]; to_runtime; respects_with settled_prim. Qed.

Lemma settled_respond callback answer body :
  respond callback answer = Some body → respects settledKept body.
Proof.
  intros Hr. destruct callback, answer; try done; cbn in Hr; injection Hr as <-;
    unfold connectResponse, Utils.getDuration; to_runtime; respects_with settled_prim.
Qed.

Lemma settled_drain fuel s : settledKept s (drain fuel s).
Proof.
  revert s. induction fuel as [|fuel IH]; intros s; cbn [drain]; [reflexivity|].
  destruct (microtasks s) as [|r rest]; [reflexivity|].
  etransitivity; [|apply IH].
  etransitivity; [|apply settled_runReaction]. by apply settled_same.
Qed.

(** A promise that is settled is never settled again: no turn of the event
    loop changes its outcome. *)
Lemma step_settledKept i s s' : step i s = Some s' → settledKept s s'.
Proof.
  intros Hstep. destruct i as [c | call answer | uri]; cbn [step] in Hstep.
  - injection Hstep as <-. etransitivity; [apply settled_invoke | apply settled_drain].
  - destruct (calls s !! call) as [[callback|]|]; try done.
    destruct (respond callback answer) as [body|] eqn:Hr; [|done].
    injection Hstep as <-.
    etransitivity; [|apply settled_drain].
    etransitivity; [|by apply (settled_respond callback answer)].
    by apply settled_same.
  - injection Hstep as <-. by apply settled_same.
Qed.

Lemma run_settledKept inputs s s' : run inputs s = Some s' → settledKept s s'.
Proof.
  revert s. induction inputs as [|i inputs IH]; intros s Hrun.
  - cbn in Hrun. injection Hrun as <-. reflexivity.
  - cbn [run] in Hrun. destruct (step i s) as [s1|] eqn:Hstep; [|done].
    etransitivity; [by eapply step_settledKept | by apply IH].
Qed.

End SettleOnceCode.

Section Outcomes.

Context {K : Constants.t}.

Lemma disconnect_fulfilled fileUri s :
  promises (snd (disconnect fileUri s)) !! fst (disconnect fileUri s)
  = Some (Fulfilled true).
Proof.
  destruct (_connections s !! fileUri) as [info|] eqn:Hin.
  - rewrite (disconnect_connected _ _ _ Hin). cbn. apply lookup_snoc.
  - rewrite (disconnect_not_connected _ _ Hin). cbn. apply lookup_snoc.
Qed.

(** X5. The promise of [disconnect] says nothing about the service: in
    every state, connected or not, it is fulfilled with [true] when
    [disconnect] returns, and whatever happens afterwards (also an answer
    of the service that reports a failure) it stays fulfilled with [true]. *)
Theorem disconnect_outcome_is_always_true fileUri s inputs s' :
  run inputs (snd (disconnect fileUri s)) = Some s' →
  promises (snd (disconnect fileUri s)) !! fst (disconnect fileUri s)
    = Some (Fulfilled true) ∧
  promises s' !! fst (disconnect fileUri s) = Some (Fulfilled true).
Proof.
  intros Hrun. split; [apply disconnect_fulfilled|].
  apply (run_settledKept _ _ _ Hrun); [apply disconnect_fulfilled | done].
Qed.

(** X6. In every state the controller can reach, when a connect in flight
    is answered with a connection id, its promise is fulfilled with [true],
    the status view is told, and the registry holds for the resource the
    connection id of the answer with the credentials given to [connect],
    whatever it held before. *)
Theorem connect_accepted s call fileUri creds extensionTimer serviceTimer promise result :
  reachable s →
  calls s !! call
    = Some (InFlight (AwaitConnect fileUri creds extensionTimer serviceTimer promise)) →
  Contracts.connectionId result ≠ "" →
  ∃ s',
    step (Answer call (ConnectionResponse result)) s = Some s' ∧
    promises s' !! promise = Some (Fulfilled true) ∧
    _connections s' !! fileUri
      = Some (mkConnectionInfo (Contracts.connectionId result) creds) ∧
    StatusView_connectSuccess fileUri creds ∈ log s'.
Proof.
  intros (clock & uri & inputs & Hrun) Hcall Hid.
  destruct (reachable_pending _ _ _ _ _ _ _ _ _ _ Hrun Hcall) as (Hq & reactions & Hp).
  destruct (answer_connect_connectedBy _ _ _ _ _ _ result _ Hcall Hid)
    as (s' & Hs & Hr & m & later & Hl & _).
  exists s'. split; [done|]. split; [|split].
  - erewrite step_answer in Hs; [| done | reflexivity]. injection Hs as <-.
    apply settled_drain; [|done]. unfold exec.
    rewrite (connectResponse_success _ _ _ _ _ _ _ Hid).
    unfold Runtime.resolve. simpl_state. rewrite Hp. simpl_state.
    apply list_lookup_insert_eq. by apply lookup_lt_Some in Hp.
  - rewrite Hr. apply lookup_insert_eq.
  - rewrite Hl. set_solver.
Qed.

End Outcomes.

Section Scenarios.

Context {K : Constants.t}.

(** X7. [onChooseDatabase] for a resource that is not connected shows the
    warning and does nothing else: no prompt, no request, no promise, and
    the registry is as before. *)
Theorem choose_database_not_connected s :
  microtasks s = [] →
  isConnected (activeTextEditorUri s) s = false →
  step (Invoke Cmd_onChooseDatabase) s
  = Some (set_log (λ l, l ++ [Utils_showWarnMsg Constants.msgChooseDatabaseNotConnected]) s).
Proof.
  unfold isConnected. intros Hq Hc.
  destruct (_connections s !! activeTextEditorUri s) eqn:Hin; [done|].
  cbn [step invoke]. unfold onChooseDatabase. run_m. rewrite Hin. run_m.
  by rewrite runMicrotasks_quiescent.
Qed.

(** A prompt of the connection UI that the user dismisses. *)
Lemma pick_dismissed call callback s :
  microtasks s = [] →
  calls s !! call = Some (InFlight callback) →
  (∃ fileUri, callback = AwaitDatabasePick fileUri) ∨
  (∃ fileUri promise, callback = AwaitConnectionPick fileUri promise) →
  step (Answer call (CredentialsPicked None)) s
  = Some (set_calls (<[call := Completed]>) s).
Proof.
  intros Hq Hcall [(f & ->) | (f & p & ->)];
    (erewrite step_answer; [| done | reflexivity]);
    unfold databasePicked, connectionPicked, exec, ret; cbn [snd];
    by rewrite runMicrotasks_quiescent.
Qed.

(** X8. When the user dismisses the database prompt of [onChooseDatabase],
    nothing happens: no request is sent and the resource stays connected
    with the credentials it had. *)
Theorem choose_database_dismissed info s :
  microtasks s = [] →
  _connections s !! activeTextEditorUri s = Some info →
  ∃ s',
    run [Invoke Cmd_onChooseDatabase;
         Answer (length (calls s)) (CredentialsPicked None)] s = Some s' ∧
    _connections s' = _connections s ∧
    promises s' = promises s ∧
    calls s' = calls s ++ [Completed] ∧
    log s' = log s ++
      [UI_showDatabasesOnCurrentServer (length (calls s)) (credentials info)].
Proof.
  intros Hq Hin. eexists. split.
  { cbn [run]. rewrite (step_onChooseDatabase info) by done.
    rewrite (pick_dismissed _ (AwaitDatabasePick (activeTextEditorUri s)));
      [done | done | cbn; apply lookup_snoc | left; by eexists]. }
  cbn. by rewrite insert_snoc.
Qed.

(** The two requests that a pick in the database prompt sends. *)
Lemma choose_database_sent info creds s :
  microtasks s = [] →
  _connections s !! activeTextEditorUri s = Some info →
  ∃ s1 t0 t1,
    run [Invoke Cmd_onChooseDatabase;
         Answer (length (calls s)) (CredentialsPicked (Some creds))] s = Some s1 ∧
    _connections s1 = _connections s ∧
    calls s1 !! (length (calls s) + 1)
      = Some (InFlight (AwaitDisconnect (activeTextEditorUri s) (length (promises s)))) ∧
    calls s1 !! (length (calls s) + 2)
      = Some (InFlight (AwaitConnect (activeTextEditorUri s) creds t0 t1
                          (S (length (promises s))))).
Proof.
  intros Hq Hin. eexists _, _, _. split.
  { cbn [run]. rewrite (step_onChooseDatabase info) by done.
    erewrite (database_picked (activeTextEditorUri s) info creds (length (calls s)));
      [done | done | done | cbn [calls]; apply lookup_snoc]. }
  simpl_state. split; [done|]. rewrite insert_snoc, <- app_assoc.
  split; by rewrite lookup_after.
Qed.

(** X9. Choosing a database when the service accepts the new connect: if
    the two answers are handled in the order of the requests (disconnect,
    then connect), the resource ends connected with the connection id of the
    answer and the credentials the user picked; if the answer to the connect
    is handled first, the answer to the disconnect removes the new entry and
    the resource ends with no entry. *)
Theorem choose_database_connect_accepted info creds result outcome s :
  microtasks s = [] →
  _connections s !! activeTextEditorUri s = Some info →
  Contracts.connectionId result ≠ "" →
  let fileUri := activeTextEditorUri s in
  let prompt := length (calls s) in
  ∃ s1,
    run [Invoke Cmd_onChooseDatabase;
         Answer prompt (CredentialsPicked (Some creds))] s = Some s1 ∧
    (∃ s2, run [Answer (prompt + 1) (DisconnectResponse outcome);
                Answer (prompt + 2) (ConnectionResponse result)] s1 = Some s2 ∧
           _connections s2 !! fileUri
             = Some (mkConnectionInfo (Contracts.connectionId result) creds)) ∧
    (∃ s2, run [Answer (prompt + 2) (ConnectionResponse result);
                Answer (prompt + 1) (DisconnectResponse outcome)] s1 = Some s2 ∧
           _connections s2 !! fileUri = None).
Proof.
  intros Hq Hin Hid fileUri prompt.
  destruct (choose_database_sent info creds s Hq Hin) as (s1 & t0 & t1 & Hrun & _ & Hd & Hc).
  exists s1. split; [done|]. fold prompt fileUri in Hd, Hc. split.
  - destruct (answer_disconnect_registry _ _ _ outcome _ Hd) as (s2 & new2 & Hs2 & Hc2 & _).
    assert (calls s2 !! (prompt + 2)
            = Some (InFlight (AwaitConnect fileUri creds t0 t1 (S (length (promises s))))))
      as Hc' by (rewrite Hc2; apply lookup_other_call; [lia | done]).
    destruct (answer_connect_registry _ _ _ _ _ _ result _ Hc') as (s3 & new3 & Hs3 & _ & Hr3).
    exists s3. cbn [run]. rewrite Hs2, Hs3. split; [done|]. rewrite Hr3.
    destruct (String.eqb_spec (Contracts.connectionId result) ""); [done|].
    apply lookup_insert_eq.
  - destruct (answer_connect_registry _ _ _ _ _ _ result _ Hc) as (s2 & new2 & Hs2 & Hc2 & _).
    assert (calls s2 !! (prompt + 1)
            = Some (InFlight (AwaitDisconnect fileUri (length (promises s)))))
      as Hd' by (rewrite Hc2; apply lookup_other_call; [lia | done]).
    destruct (answer_disconnect_registry _ _ _ outcome _ Hd') as (s3 & new3 & Hs3 & _ & Hr3).
    exists s3. cbn [run]. rewrite Hs2, Hs3. split; [done|]. rewrite Hr3.
    apply lookup_delete_eq.
Qed.

(** [onNewConnection] returns the promise it creates. *)
Lemma onNewConnection_promise s : fst (onNewConnection s) = length (promises s).
Proof.
  unfold onNewConnection. run_m. by destruct (String.eqb (activeTextEditorUri s) "").
Qed.

(** The state after the user picked a connection for an editor whose
    resource is not connected. *)
Lemma new_connection_sent creds s :
  microtasks s = [] →
  _connections s !! activeTextEditorUri s = None →
  ∃ t0 t1 events,
    run [Invoke Cmd_onNewConnection;
         Answer (length (calls s)) (CredentialsPicked (Some creds))] s
    = Some (mkState (_connections s) (activeTextEditorUri s)
        (promises s ++ [Pending []; Fulfilled true;
                        Pending [ThenResolveTrue (length (promises s))]])
        (calls s ++ [Completed;
                     InFlight (AwaitConnect (activeTextEditorUri s) creds t0 t1
                                 (length (promises s) + 2))])
        [] (log s ++ events) (hrtime s) (clockReads s + 2)).
Proof.
  intros Hq Hin. eexists _, _, _. cbn [run]. rewrite step_onNewConnection by done.
  erewrite (connection_picked (activeTextEditorUri s) _ creds (length (calls s)));
    [| done | done | cbn [calls]; apply lookup_snoc].
  simpl_state. rewrite insert_snoc, !length_app, <- !app_assoc. cbn [app length].
  rewrite Nat.add_1_r. do 2 f_equal.
  by replace (length (promises s) + 2) with (S (S (length (promises s)))) by lia.
Qed.

Lemma lookup_at_length {A} (l k : list A) : (l ++ k) !! length l = k !! 0.
Proof. by rewrite <- (Nat.add_0_r (length l)), lookup_after. Qed.

Lemma insert_at_length {A} (l k : list A) x :
  <[length l := x]> (l ++ k) = l ++ <[0 := x]> k.
Proof. by rewrite <- (Nat.add_0_r (length l)) at 1; rewrite insert_app_r. Qed.

(** The two turns of an accepted [onNewConnection]. *)
Lemma new_connection_answered creds result s :
  microtasks s = [] →
  _connections s !! activeTextEditorUri s = None →
  Contracts.connectionId result ≠ "" →
  ∃ s2 s3,
    run [Invoke Cmd_onNewConnection;
         Answer (length (calls s)) (CredentialsPicked (Some creds))] s = Some s2 ∧
    promises s2 !! length (promises s) = Some (Pending []) ∧
    step (Answer (length (calls s) + 1) (ConnectionResponse result)) s2 = Some s3 ∧
    promises s3 !! length (promises s) = Some (Fulfilled true) ∧
    _connections s3
      = <[activeTextEditorUri s := mkConnectionInfo (Contracts.connectionId result) creds]>
          (_connections s) ∧
    activeTextEditorUri s3 = activeTextEditorUri s.
Proof.
  intros Hq Hin Hid.
  destruct (new_connection_sent creds s Hq Hin) as (t0 & t1 & events & Hrun).
  eexists _, _. split; [exact Hrun|]. cbn [promises].
  split; [by rewrite lookup_at_length|].
  erewrite step_answer; [| cbn [calls]; by rewrite lookup_after | reflexivity].
  split; [reflexivity|].
  unfold exec. rewrite (connectResponse_success _ _ _ _ _ _ _ Hid).
  unfold Runtime.resolve. simpl_state. rewrite lookup_after.
  cbn [lookup list_lookup]. simpl_state.
  erewrite runMicrotasks_cons; [|by simpl_state].
  cbn [runReaction]. unfold exec, Runtime.resolve. simpl_state.
  rewrite insert_app_r, lookup_at_length.
  cbn [insert list_insert lookup list_lookup]. simpl_state.
  rewrite runMicrotasks_quiescent by done. simpl_state.
  split; [|done].
  by rewrite insert_at_length, lookup_at_length.
Qed.

(** X10. [onNewConnection] for an editor whose resource is not connected:
    after the user picked a connection the promise that [onNewConnection]
    returned is still pending; it is fulfilled with [true] in the turn in
    which the service answers the connect with a connection id, and the
    resource is then connected with the picked credentials. *)
Theorem new_connection_resolves_with_connect creds result s :
  microtasks s = [] →
  _connections s !! activeTextEditorUri s = None →
  Contracts.connectionId result ≠ "" →
  let promise := fst (onNewConnection s) in
  let prompt := length (calls s) in
  ∃ s2 s3,
    run [Invoke Cmd_onNewConnection;
         Answer prompt (CredentialsPicked (Some creds))] s = Some s2 ∧
    promises s2 !! promise = Some (Pending []) ∧
    step (Answer (prompt + 1) (ConnectionResponse result)) s2 = Some s3 ∧
    promises s3 !! promise = Some (Fulfilled true) ∧
    _connections s3 !! activeTextEditorUri s
      = Some (mkConnectionInfo (Contracts.connectionId result) creds).
Proof.
  intros Hq Hin Hid promise prompt. subst promise prompt.
  rewrite onNewConnection_promise.
  destruct (new_connection_answered creds result s Hq Hin Hid)
    as (s2 & s3 & H1 & H2 & H3 & H4 & H5 & _).
  exists s2, s3. repeat split; try done. rewrite H5. apply lookup_insert_eq.
Qed.

(** Promises that callbacks settle are promises that exist. *)
Lemma targets_allocated s p :
  promisesOk s → connectPromise s p ∨ otherTarget s p → p < length (promises s).
Proof.
  intros (_ & I2 & _ & I4) [H|H]; [|by apply I4].
  destruct (I2 p H) as (rs & Hrs). by apply lookup_lt_Some in Hrs.
Qed.

(** A promise made in a turn after which nothing new is in flight, nothing
    is queued and no callback is registered on the new promises. *)
Lemma untargeted_new s s' p :
  promisesOk s →
  length (promises s) ≤ p →
  microtasks s' = [] →
  (∀ call callback, calls s' !! call = Some (InFlight callback) →
                    calls s !! call = Some (InFlight callback)) →
  (∀ q reactions r, promises s' !! q = Some (Pending reactions) → r ∈ reactions →
                    promises s !! q = Some (Pending reactions)) →
  untargeted s' p.
Proof.
  intros Hok Hp Hm Hc Hr.
  assert (¬ (connectPromise s p ∨ otherTarget s p)) as Hn.
  { intros H. apply (targets_allocated s p Hok) in H. lia. }
  split.
  - intros (call & f & c & e & t & H). apply Hn. left. exists call, f, c, e, t. auto.
  - intros [(call & cb & H & Hncb & Ht) | [(r & Hin & _) | (q & rs & r & Hq & Hin & Ht)]].
    + apply Hn. right. left. exists call, cb. auto.
    + rewrite Hm in Hin. by apply elem_of_nil in Hin.
    + apply Hn. right. right. right. exists q, rs, r. eauto.
Qed.

(** X11. When the user dismisses the picklist of [onNewConnection], the
    promise that [onNewConnection] returned is left pending and no callback
    in flight, queued or registered settles it: the caller never hears of
    the outcome. *)
Theorem new_connection_dismissed s :
  reachable s →
  let promise := fst (onNewConnection s) in
  ∃ s',
    run [Invoke Cmd_onNewConnection;
         Answer (length (calls s)) (CredentialsPicked None)] s = Some s' ∧
    promises s' !! promise = Some (Pending []) ∧
    untargeted s' promise ∧
    _connections s' = _connections s.
Proof.
  intros (clock & uri & inputs & Hrun) promise. subst promise.
  rewrite onNewConnection_promise.
  destruct (run_idle_promisesOk _ _ _ Hrun eq_refl (init_promisesOk _ _)) as (Hq & Hok).
  eexists. split.
  { cbn [run]. rewrite step_onNewConnection by done.
    rewrite (pick_dismissed _ (AwaitConnectionPick (activeTextEditorUri s)
                                 (length (promises s))));
      [done | done | cbn; apply lookup_snoc | right; by eexists _, _]. }
  simpl_state. split; [apply lookup_snoc|]. split; [|done].
  apply (untargeted_new s); [done | done | done | |]; simpl_state.
  - intros call cb H. rewrite insert_snoc in H.
    apply lookup_app_Some in H as [H | [_ H]]; [done|].
    by apply list_lookup_singleton_Some in H as [_ H].
  - intros q rs r H Hin. apply lookup_app_Some in H as [H | [_ H]]; [done|].
    apply list_lookup_singleton_Some in H as [_ H]. simplify_eq.
    by apply elem_of_nil in Hin.
Qed.


End Scenarios.


Section EditorBlind.

Context {K : Constants.t}.

Lemma blind_ret {A} (a : A) : editorBlind (ret a).
Proof. done. Qed.

Lemma blind_bind {A B} (m : M A) (k : A → M B) :
  editorBlind m → (∀ a, editorBlind (k a)) → editorBlind (bind m k).
Proof.
  intros Hm Hk uri s. unfold bind. rewrite Hm.
  destruct (m s) as [a s1]. cbn [fst snd]. rewrite Hk. by destruct (k a s1).
Qed.

Lemma blind_when b m : editorBlind m → editorBlind (when b m).
Proof. by destruct b. Qed.

Lemma blind_emit e : editorBlind (Runtime.emit e).
Proof. done. Qed.

Lemma blind_newPromise : editorBlind Runtime.newPromise.
Proof. done. Qed.

Lemma blind_readClock : editorBlind Runtime.readClock.
Proof. done. Qed.

Lemma blind_resolve p v : editorBlind (Runtime.resolve p v).
Proof.
  intros uri s. unfold Runtime.resolve. cbn [promises set_activeTextEditorUri].
  by destruct (promises s !! p) as [[]|].
Qed.

Lemma blind_reject p : editorBlind (Runtime.reject p).
Proof.
  intros uri s. unfold Runtime.reject. cbn [promises set_activeTextEditorUri].
  by destruct (promises s !! p) as [[]|].
Qed.

Lemma blind_then p r : editorBlind (Runtime.then_ p r).
Proof.
  intros uri s. unfold Runtime.then_. cbn [promises set_activeTextEditorUri].
  by destruct (promises s !! p) as [[]|].
Qed.

Lemma blind_await announce callback : editorBlind (Runtime.await announce callback).
Proof. done. Qed.

Lemma blind_isConnected fileUri : editorBlind (gets (isConnected fileUri)).
Proof. done. Qed.

Lemma blind_set_connections f : editorBlind (modify (set_connections f)).
Proof. done. Qed.

Lemma blind_getDuration t : editorBlind (Utils.getDuration t).
Proof. unfold Utils.getDuration. by destruct (Timer.endTime t). Qed.

End EditorBlind.

Ltac blind_step :=
  lazymatch goal with
  | |- editorBlind (bind _ _) => apply blind_bind; [|intros ?]
  | |- editorBlind (when _ _) => apply blind_when
  | |- editorBlind (ret _) => apply blind_ret
  | |- editorBlind (Runtime.emit _) => apply blind_emit
  | |- editorBlind Runtime.newPromise => apply blind_newPromise
  | |- editorBlind Runtime.readClock => apply blind_readClock
  | |- editorBlind (Runtime.resolve _ _) => apply blind_resolve
  | |- editorBlind (Runtime.reject _) => apply blind_reject
  | |- editorBlind (Runtime.then_ _ _) => apply blind_then
  | |- editorBlind (Runtime.await _ _) => apply blind_await
  | |- editorBlind (gets (isConnected _)) => apply blind_isConnected
  | |- editorBlind (modify (set_connections _)) => apply blind_set_connections
  | |- editorBlind (Utils.getDuration _) => apply blind_getDuration
  | |- editorBlind (if ?b then _ else _) => destruct b
  | |- editorBlind (match ?o with Some _ => _ | None => _ end) => destruct o
  end.

Ltac blind :=
  unfold Client.sendRequest, StatusView.connecting, StatusView.connectSuccess,
    StatusView.connectError, StatusView.notConnected, Utils.showInfoMsg,
    Utils.showWarnMsg, Utils.showErrorMsg, Utils.newTimer, Utils.endTimer,
    ConnectionUI.showConnections, ConnectionUI.showDatabasesOnCurrentServer,
    ConnectionUI.createAndSaveProfile, ConnectionUI.removeProfile;
  repeat blind_step.

Section EditorBlindCode.

Context {K : Constants.t}.

Lemma blind_disconnect fileUri : editorBlind (disconnect fileUri).
Proof. unfold disconnect. blind. Qed.

Lemma blind_connect fileUri creds : editorBlind (connect fileUri creds).
Proof. unfold connect. blind. Qed.

Lemma blind_onCreateProfile : editorBlind onCreateProfile.
Proof. unfold onCreateProfile. blind. Qed.

Lemma blind_onRemoveProfile : editorBlind onRemoveProfile.
Proof. unfold onRemoveProfile. blind. Qed.

Lemma blind_respond callback answer body :
  respond callback answer = Some body → editorBlind body.
Proof.
  destruct callback, answer; intros H; cbn in H; simplify_eq.
  - unfold connectResponse. blind.
  - unfold disconnectResponse. blind.
  - unfold databasePicked. blind. apply blind_disconnect.
  - unfold connectionPicked. blind. apply blind_disconnect.
  - unfold profileCreated. blind.
  - blind.
Qed.

Lemma blind_runReaction r : editorBlind (runReaction r).
Proof. destruct r; cbn [runReaction]; blind; apply blind_connect. Qed.

Lemma blind_exec {A} (m : M A) uri s :
  editorBlind m →
  exec m (set_activeTextEditorUri uri s) = set_activeTextEditorUri uri (exec m s).
Proof. intros H. unfold exec. by rewrite H. Qed.

Lemma blind_drain fuel uri s :
  drain fuel (set_activeTextEditorUri uri s) = set_activeTextEditorUri uri (drain fuel s).
Proof.
  revert s. induction fuel as [|fuel IH]; intros s; [done|].
  cbn [drain]. change (microtasks (set_activeTextEditorUri uri s)) with (microtasks s).
  destruct (microtasks s) as [|r rest]; [done|].
  change (set_microtasks (λ _, rest) (set_activeTextEditorUri uri s))
    with (set_activeTextEditorUri uri (set_microtasks (λ _, rest) s)).
  rewrite blind_exec by apply blind_runReaction. apply IH.
Qed.

Lemma blind_runMicrotasks uri s :
  runMicrotasks (set_activeTextEditorUri uri s)
  = set_activeTextEditorUri uri (runMicrotasks s).
Proof. unfold runMicrotasks. by rewrite blind_drain. Qed.

Lemma step_editor_changed i uri s :
  usesActiveEditor i = false →
  step i (set_activeTextEditorUri uri s) = set_activeTextEditorUri uri <$> step i s.
Proof.
  intros Hi.
  assert (∀ (m : M unit) s0, editorBlind m →
            Some (runMicrotasks (exec m (set_activeTextEditorUri uri s0)))
            = Some (set_activeTextEditorUri uri (runMicrotasks (exec m s0)))) as Hb.
  { intros m s0 Hm. by rewrite blind_exec, blind_runMicrotasks. }
  destruct i as [c | call answer | uri']; [| |done].
  - destruct c; try discriminate Hi; apply Hb; cbn [invoke];
      (apply blind_bind; [|intros ?; apply blind_ret]);
      [ apply blind_disconnect | apply blind_connect
      | apply blind_onCreateProfile | apply blind_onRemoveProfile ].
  - unfold step.
    change (calls (set_activeTextEditorUri uri s)) with (calls s).
    destruct (calls s !! call) as [[callback|]|]; [|done..].
    destruct (respond callback answer) as [body|] eqn:Hbody; [|done].
    change (set_calls (<[call:=Completed]>) (set_activeTextEditorUri uri s))
      with (set_activeTextEditorUri uri (set_calls (<[call:=Completed]>) s)).
    apply Hb. by eapply blind_respond.
Qed.

(** X13. Only [onChooseDatabase], [onDisconnect] and [onNewConnection]
    look at the active editor, and they do so when they are called: every
    other method and every callback (the answer of the service or of a
    prompt) does the same whatever editor is active.  A change of the
    active editor before such a turn can as well come after it. *)
Theorem editor_change_commutes i uri s :
  usesActiveEditor i = false →
  run [ActiveEditorChanged uri; i] s = run [i; ActiveEditorChanged uri] s.
Proof.
  intros Hi. cbn [run]. change (step (ActiveEditorChanged uri) s)
    with (Some (set_activeTextEditorUri uri s)). cbv iota beta.
  rewrite (step_editor_changed _ _ _ Hi). by destruct (step i s).
Qed.


(** X15. [onCreateProfile] returns a promise that stays pending while the
    prompt is open and is fulfilled when the prompt answers: with [true]
    if a profile was made, with [false] if not.  The registry is left as
    it is and nothing is sent to the service. *)
Theorem create_profile_outcome profile s :
  microtasks s = [] →
  let promise := fst (onCreateProfile s) in
  ∃ s1 s2,
    step (Invoke Cmd_onCreateProfile) s = Some s1 ∧
    promises s1 !! promise = Some (Pending []) ∧
    step (Answer (length (calls s)) (ProfileCreated profile)) s1 = Some s2 ∧
    promises s2 !! promise = Some (Fulfilled (bool_decide (is_Some profile))) ∧
    _connections s2 = _connections s ∧
    log s2 = log s ++ [UI_createAndSaveProfile (length (calls s))].
Proof.
  intros Hq promise. subst promise.
  assert (step (Invoke Cmd_onCreateProfile) s
          = Some (mkState (_connections s) (activeTextEditorUri s)
                    (promises s ++ [Pending []])
                    (calls s ++ [InFlight (AwaitCreateProfile (length (promises s)))])
                    [] (log s ++ [UI_createAndSaveProfile (length (calls s))])
                    (hrtime s) (clockReads s))) as H1.
  { cbn [step invoke]. unfold onCreateProfile. run_m.
    rewrite runMicrotasks_quiescent by done. by rewrite Hq. }
  eexists _, _. split; [exact H1|]. cbn [promises].
  split; [apply lookup_snoc|].
  erewrite step_answer; [| cbn [calls]; apply lookup_snoc | reflexivity].
  split; [reflexivity|].
  assert (∀ v, exec (Runtime.resolve (length (promises s)) v)
      (set_calls (<[length (calls s) := Completed]>)
        (mkState (_connections s) (activeTextEditorUri s)
                    (promises s ++ [Pending []])
                    (calls s ++ [InFlight (AwaitCreateProfile (length (promises s)))])
                    [] (log s ++ [UI_createAndSaveProfile (length (calls s))])
                    (hrtime s) (clockReads s)))
      = mkState (_connections s) (activeTextEditorUri s)
                    (promises s ++ [Fulfilled v])
                    (calls s ++ [Completed])
                    [] (log s ++ [UI_createAndSaveProfile (length (calls s))])
                    (hrtime s) (clockReads s)) as Hres.
  { intros v. unfold exec, Runtime.resolve. simpl_state. rewrite lookup_snoc.
    simpl_state. by rewrite !insert_snoc. }
  unfold profileCreated.
  destruct profile as [name|]; rewrite Hres, runMicrotasks_quiescent by done;
    (split; [apply lookup_snoc | done]).
Qed.

End EditorBlindCode.


(** ** The measures of the telemetry *)

Section Ticking.

Context {K : Constants.t}.

Lemma timersAt_later s s' extensionTimer serviceTimer :
  hrtime s' = hrtime s → clockReads s ≤ clockReads s' →
  timersAt s extensionTimer serviceTimer → timersAt s' extensionTimer serviceTimer.
Proof.
  intros Hh Hc (i & j & Hij & Hj & -> & ->). exists i, j. rewrite Hh.
  repeat split; [done | lia].
Qed.

#[local] Instance ticking_preorder : PreOrder ticking.
Proof.
  split.
  - intros s. repeat split; auto.
  - intros s1 s2 s3 (Hh1 & Hc1 & Ht1 & Hn1) (Hh2 & Hc2 & Ht2 & Hn2).
    repeat split; [congruence | lia | congruence |].
    intros call f c te ts p H.
    destruct (Hn2 _ _ _ _ _ _ H) as [H2|H2]; [|by right].
    destruct (Hn1 _ _ _ _ _ _ H2) as [H1|H1]; [by left|].
    right. by apply (timersAt_later s2).
Qed.

Lemma ticking_same s s' :
  hrtime s' = hrtime s → clockReads s' = clockReads s → log s' = log s →
  calls s' = calls s → ticking s s'.
Proof. intros Hh Hc Hl Hcs. repeat split; [done | lia | by rewrite Hl |]. rewrite Hcs. auto. Qed.

Lemma ticking_sameWorld s s' : sameWorld s s' → ticking s s'.
Proof. intros (_ & _ & Hc & Hl & Hh & Hr). by apply ticking_same. Qed.

Lemma ticking_emit e :
  (∀ name measures, e ≠ Telemetry_sendTelemetryEvent name measures) →
  respects ticking (Runtime.emit e).
Proof.
  intros He s. repeat split; [done| |by left].
  cbn. rewrite telemetryOf_app. destruct e as [| | | | | | |name measures| | | | |];
    cbn; try apply app_nil_r.
  by destruct (He name measures).
Qed.

Lemma ticking_connections f : respects ticking (modify (set_connections f)).
Proof. intros s. by apply ticking_same. Qed.

Lemma ticking_newPromise : respects ticking Runtime.newPromise.
Proof. intros s. by apply ticking_same. Qed.

Lemma ticking_readClock : respects ticking Runtime.readClock.
Proof. intros s. repeat split; cbn; [lia | by left]. Qed.

Lemma ticking_resolve p v : respects ticking (Runtime.resolve p v).
Proof. intros s. apply ticking_sameWorld, sameWorld_resolve. Qed.

Lemma ticking_reject p : respects ticking (Runtime.reject p).
Proof. intros s. apply ticking_sameWorld, sameWorld_reject. Qed.

Lemma ticking_then p r : respects ticking (Runtime.then_ p r).
Proof. intros s. apply ticking_sameWorld, sameWorld_then. Qed.

Lemma ticking_await announce callback :
  (∀ call name measures, announce call ≠ Telemetry_sendTelemetryEvent name measures) →
  notConnectCallback callback →
  respects ticking (Runtime.await announce callback).
Proof.
  intros Ha Hcb s. repeat split; [done | |].
  - cbn. rewrite telemetryOf_app.
    destruct (announce (length (calls s))) as [| | | | | | |name measures| | | | |] eqn:He;
      cbn; try apply app_nil_r.
    by destruct (Ha _ _ _ He).
  - intros call f c te ts p H. cbn in H.
    apply lookup_app_Some in H as [H | [_ H]]; [by left|].
    apply list_lookup_singleton_Some in H as [_ H]. by simplify_eq.
Qed.

Lemma ticking_connect fileUri creds : respects ticking (connect fileUri creds).
Proof.
  intros s. rewrite connect_eq. repeat split; cbn [snd hrtime clockReads log calls];
    [lia | by rewrite telemetryOf_app, app_nil_r |].
  intros call f c te ts p H.
  apply lookup_app_Some in H as [H | [_ H]]; [by left|].
  apply list_lookup_singleton_Some in H as [_ H]. unfold connectCallback in H.
  simplify_eq. right. exists (clockReads s), (S (clockReads s)). cbn.
  repeat split; lia.
Qed.

End Ticking.

Ltac ticking_prim :=
  idtac; first
    [ apply ticking_connect
    | apply ticking_await; [done | exact I]
    | apply ticking_emit; done
    | apply ticking_connections
    | apply ticking_newPromise
    | apply ticking_readClock
    | apply ticking_resolve
    | apply ticking_reject
    | apply ticking_then ].

(** Unfold the controller's code to [connect], the calls that leave the
    controller and the operations of the runtime. *)
Ltac to_calls :=
  unfold onChooseDatabase, onDisconnect, onNewConnection, onCreateProfile,
    onRemoveProfile, databasePicked, connectionPicked, profileCreated,
    disconnectResponse, disconnect, Client.sendRequest, StatusView.connecting,
    StatusView.connectSuccess, StatusView.connectError, StatusView.notConnected,
    Utils.showInfoMsg, Utils.showWarnMsg, Utils.showErrorMsg,
    Utils.getActiveTextEditorUri, Utils.newTimer, Utils.endTimer,
    ConnectionUI.showConnections, ConnectionUI.showDatabasesOnCurrentServer,
    ConnectionUI.createAndSaveProfile, ConnectionUI.removeProfile.

Section TickingCode.

Context {K : Constants.t}.

Existing Instance ticking_preorder.

Lemma ticking_invoke c : respects ticking (invoke c).
Proof. destruct c; cbn [invoke]; to_calls; respects_with ticking_prim. Qed.

Lemma ticking_runReaction r : respects ticking (runReaction r).
Proof. destruct r; cbn [runReaction]; to_calls; respects_with ticking_prim. Qed.

Lemma ticking_drain fuel s : ticking s (drain fuel s).
Proof.
  revert s. induction fuel as [|fuel IH]; intros s; cbn [drain]; [reflexivity|].
  destruct (microtasks s) as [|r rest]; [reflexivity|].
  etransitivity; [|apply IH].
  etransitivity; [|apply ticking_runReaction]. by apply ticking_same.
Qed.

Lemma ticking_respond callback answer body :
  respond callback answer = Some body →
  notConnectCallback callback →
  respects ticking body.
Proof.
  intros Hr Hcb. destruct callback, answer; try done; cbn in Hr; injection Hr as <-;
    to_calls; respects_with ticking_prim.
Qed.

Lemma ticking_connectResponse_failure fileUri creds extensionTimer serviceTimer promise
    result :
  Contracts.connectionId result = "" →
  respects ticking (connectResponse fileUri creds extensionTimer serviceTimer promise result).
Proof.
  intros Hid s. rewrite (connectResponse_failure _ _ _ _ _ _ _ Hid).
  etransitivity; [|apply ticking_reject].
  repeat split; cbn; [lia | by rewrite telemetryOf_app, app_nil_r | by left].
Qed.

Lemma ticking_completed call s : ticking s (set_calls (<[call := Completed]>) s).
Proof.
  repeat split; [done|]. intros c f cr te ts p H. cbn in H. left.
  destruct (decide (c = call)) as [->|Hne]; [|by rewrite list_lookup_insert_ne in H].
  apply list_lookup_insert_Some in H as [(_ & H & _) | (H & _)]; done.
Qed.

Lemma ticking_timed s s' : ticking s s' → timed s → timed s'.
Proof.
  intros (Hh & Hc & Ht & Hn) (Hto & Hm). split.
  - intros call f c te ts p H. destruct (Hn _ _ _ _ _ _ H) as [H1|H1]; [|done].
    apply (timersAt_later s); [done..|]. by eapply Hto.
  - rewrite Hh. intros Hs name m. rewrite Ht. exact (Hm Hs name m).
Qed.

(** The turn that answers a connection request with a connection id: the
    measures it sends. *)
Lemma connectResponse_timed fileUri creds extensionTimer serviceTimer promise result s :
  Contracts.connectionId result ≠ "" →
  timersAt s extensionTimer serviceTimer →
  timed s →
  timed (exec (connectResponse fileUri creds extensionTimer serviceTimer promise result) s).
Proof.
  intros Hid (i & j & Hij & Hj & -> & ->) (Hto & Hm). unfold exec.
  rewrite (connectResponse_success _ _ _ _ _ _ _ Hid).
  eapply ticking_timed; [apply ticking_resolve|]. split.
  - intros call f c te ts p H. cbn in H.
    apply (timersAt_later s); [done | cbn; lia | by eapply Hto].
  - cbn [hrtime log]. intros Hs name m. rewrite telemetryOf_app. cbn.
    intros [H | H%list_elem_of_singleton]%elem_of_app; [exact (Hm Hs name m H)|].
    injection H as _ ->. cbn.
    pose proof (Hs i j Hij). pose proof (Hs j (clockReads s) ltac:(lia)).
    pose proof (Hs (clockReads s) (S (clockReads s)) ltac:(lia)). lia.
Qed.

Lemma step_timed i s s' : step i s = Some s' → timed s → timed s'.
Proof.
  intros Hstep Ht. destruct i as [c | call answer | uri]; cbn [step] in Hstep.
  - injection Hstep as <-. eapply ticking_timed; [|done].
    etransitivity; [apply ticking_invoke | apply ticking_drain].
  - destruct (calls s !! call) as [[callback|]|] eqn:Hcall; try done.
    destruct (respond callback answer) as [body|] eqn:Hr; [|done].
    injection Hstep as <-.
    eapply ticking_timed; [apply ticking_drain|].
    pose proof (ticking_timed _ _ (ticking_completed call s) Ht) as Ht0.
    destruct callback as [f c te ts p| | | | |];
      try (eapply ticking_timed; [by eapply ticking_respond | done]).
    destruct answer as [result| | | |]; try done. cbn in Hr. injection Hr as <-.
    destruct (String.eqb_spec (Contracts.connectionId result) "") as [Hid|Hid].
    + eapply ticking_timed; [by apply ticking_connectResponse_failure | done].
    + apply connectResponse_timed; [done | | done].
      destruct Ht as [Hto _]. apply (timersAt_later s); [done | done |]. by eapply Hto.
  - injection Hstep as <-. eapply ticking_timed; [|done]. by apply ticking_same.
Qed.

Lemma run_timed inputs s s' : run inputs s = Some s' → timed s → timed s'.
Proof.
  revert s. induction inputs as [|i inputs IH]; intros s Hrun Ht.
  - cbn in Hrun. by injection Hrun as <-.
  - cbn [run] in Hrun. destruct (step i s) as [s1|] eqn:Hstep; [|done].
    apply (IH s1); [done|]. by eapply step_timed.
Qed.

Lemma init_timed clock uri : timed (init clock uri).
Proof. split; [by intros call f c te ts p H | by intros _ name m H%elem_of_nil]. Qed.

(** X16. With a clock that never runs backwards, no telemetry event the
    controller has sent carries a negative measure: the service time and
    the extension time (the time of the whole connect less the service
    time) of every connect are at least zero; and the timers of every
    connection request in flight were started in the past, the extension
    timer first. *)
Theorem telemetry_measures_not_negative s :
  reachable s →
  steady (hrtime s) →
  measuresOk (log s) ∧ timersOk s.
Proof.
  intros (clock & uri & inputs & Hrun) Hs.
  destruct (run_timed _ _ _ Hrun (init_timed _ _)) as [Hto Hm]. auto.
Qed.

End TickingCode.

(** ** A new connection for a connected editor *)

Section Replace.

Context {K : Constants.t}.

(** The state after the user picked a connection for an editor whose
    resource is connected: the disconnect and the connect are both sent. *)
Lemma connection_picked_connected fileUri info outer creds call s :
  microtasks s = [] →
  _connections s !! fileUri = Some info →
  calls s !! call = Some (InFlight (AwaitConnectionPick fileUri outer)) →
  step (Answer call (CredentialsPicked (Some creds))) s
  = Some (mkState (_connections s) (activeTextEditorUri s)
      (promises s ++ [Fulfilled true; Pending [ThenResolveTrue outer]])
      (<[call := Completed]> (calls s) ++
         [InFlight (AwaitDisconnect fileUri (length (promises s)));
          InFlight (AwaitConnect fileUri creds
                      (Timer.mk (clockAfter s 0) None) (Timer.mk (clockAfter s 1) None)
                      (S (length (promises s))))])
      []
      (log s ++
         [Client_sendRequest (length (calls s))
            (Contracts.DisconnectRequest (Contracts.DisconnectParams.mk fileUri));
          StatusView_connecting fileUri creds;
          Client_sendRequest (S (length (calls s)))
            (Contracts.ConnectionRequest (connectParamsOf fileUri creds))])
      (hrtime s) (clockReads s + 2)).
Proof.
  intros Hq Hin Hcall.
  erewrite step_answer; [| done | reflexivity]. f_equal.
  unfold connectionPicked, exec, bind.
  erewrite disconnect_connected by done. simpl_state.
  unfold Runtime.then_ at 1. simpl_state. rewrite lookup_snoc. simpl_state.
  erewrite runMicrotasks_cons; [|simpl_state; by rewrite Hq].
  simpl_state. cbn [runReaction]. unfold exec, bind, ret. rewrite connect_eq.
  simpl_state. unfold Runtime.then_.  simpl_state.
  rewrite !length_app. cbn [length].
  replace (length (promises s) + 1) with (length (promises s ++ [Fulfilled true]))
    by (rewrite length_app; done).
  rewrite lookup_snoc. simpl_state. rewrite insert_snoc.
  rewrite runMicrotasks_quiescent by done.
  unfold connectCallback, clockAfter. simpl_state.
  rewrite !length_app, !length_insert. cbn [length].
  rewrite <- !app_assoc. cbn [app].
  rewrite ?Nat.add_0_r, ?Nat.add_1_r.
  do 2 f_equal. lia.
Qed.

(** The answer to a disconnect whose promise is settled already. *)
Lemma answer_disconnect_settled call fileUri promise outcome s :
  microtasks s = [] →
  calls s !! call = Some (InFlight (AwaitDisconnect fileUri promise)) →
  (∀ reactions, promises s !! promise ≠ Some (Pending reactions)) →
  step (Answer call (DisconnectResponse outcome)) s
  = Some (mkState (delete fileUri (_connections s)) (activeTextEditorUri s) (promises s)
      (<[call := Completed]> (calls s)) []
      (log s ++ [StatusView_notConnected fileUri]) (hrtime s) (clockReads s)).
Proof.
  intros Hq Hcall Hp. erewrite step_answer; [| done | reflexivity]. f_equal.
  unfold exec. rewrite disconnectResponse_eq. unfold Runtime.resolve. simpl_state.
  destruct (promises s !! promise) as [[rs| |]|] eqn:Hl; [by destruct (Hp rs)| | |];
    simpl_state; rewrite runMicrotasks_quiescent by done; by rewrite Hq.
Qed.

(** The answer, with a connection id, to a connect on whose promise one
    callback waits that fulfils a pending promise [outer]. *)
Lemma answer_connect_chained call fileUri creds extensionTimer serviceTimer promise outer
    result s :
  microtasks s = [] →
  calls s !! call
    = Some (InFlight (AwaitConnect fileUri creds extensionTimer serviceTimer promise)) →
  promises s !! promise = Some (Pending [ThenResolveTrue outer]) →
  promises s !! outer = Some (Pending []) →
  Contracts.connectionId result ≠ "" →
  ∃ s',
    step (Answer call (ConnectionResponse result)) s = Some s' ∧
    microtasks s' = [] ∧
    promises s' = <[outer := Fulfilled true]> (<[promise := Fulfilled true]> (promises s)) ∧
    calls s' = <[call := Completed]> (calls s) ∧
    _connections s'
      = <[fileUri := mkConnectionInfo (Contracts.connectionId result) creds]>
          (_connections s).
Proof.
  intros Hq Hcall Hp Ho Hid.
  assert (promise ≠ outer) as Hne by (intros ->; congruence).
  erewrite step_answer; [| done | reflexivity]. eexists. split; [reflexivity|].
  unfold exec. rewrite (connectResponse_success _ _ _ _ _ _ _ Hid).
  unfold Runtime.resolve. simpl_state. rewrite Hp. simpl_state.
  erewrite runMicrotasks_cons; [|simpl_state; by rewrite Hq].
  cbn [runReaction]. unfold exec, Runtime.resolve. simpl_state.
  rewrite list_lookup_insert_ne, Ho by done. simpl_state.
  rewrite runMicrotasks_quiescent by done. by simpl_state.
Qed.

(** X17. [onNewConnection] for an editor whose resource is connected: when
    the user picks a connection, the disconnect request and the connect
    request are both sent in that turn, the connect without waiting for
    the answer to the disconnect.  If the service accepts the connect, the
    promise that [onNewConnection] returned is fulfilled with [true] in
    either order of the answers; but the resource is connected (with the
    picked credentials) only if the disconnect is answered first: answered
    last, the disconnect removes the new entry. *)
Theorem new_connection_replaces_connection info creds result outcome s :
  microtasks s = [] →
  _connections s !! activeTextEditorUri s = Some info →
  Contracts.connectionId result ≠ "" →
  let fileUri := activeTextEditorUri s in
  let promise := fst (onNewConnection s) in
  let prompt := length (calls s) in
  ∃ s1,
    run [Invoke Cmd_onNewConnection;
         Answer prompt (CredentialsPicked (Some creds))] s = Some s1 ∧
    Client_sendRequest (prompt + 1)
      (Contracts.DisconnectRequest (Contracts.DisconnectParams.mk fileUri)) ∈ log s1 ∧
    Client_sendRequest (prompt + 2)
      (Contracts.ConnectionRequest (connectParamsOf fileUri creds)) ∈ log s1 ∧
    promises s1 !! promise = Some (Pending []) ∧
    (∃ s2, run [Answer (prompt + 1) (DisconnectResponse outcome);
                Answer (prompt + 2) (ConnectionResponse result)] s1 = Some s2 ∧
           promises s2 !! promise = Some (Fulfilled true) ∧
           _connections s2 !! fileUri
             = Some (mkConnectionInfo (Contracts.connectionId result) creds)) ∧
    (∃ s2, run [Answer (prompt + 2) (ConnectionResponse result);
                Answer (prompt + 1) (DisconnectResponse outcome)] s1 = Some s2 ∧
           promises s2 !! promise = Some (Fulfilled true) ∧
           _connections s2 !! fileUri = None).
Proof.
  intros Hq Hin Hid fileUri promise prompt. subst promise prompt.
  rewrite onNewConnection_promise.
  eexists. split.
  { cbn [run]. rewrite step_onNewConnection by done.
    erewrite (connection_picked_connected fileUri info _ creds (length (calls s)));
      [reflexivity | done | done | cbn [calls]; apply lookup_snoc]. }
  simpl_state. rewrite insert_snoc, !length_app, <- !app_assoc. cbn [app length].
  replace (S (length (calls s) + 1)) with (length (calls s) + 2) by lia.
  split; [set_solver|]. split; [set_solver|]. split; [by rewrite lookup_at_length|].
  match goal with |- context [run _ ?st] => set (s1 := st) end.
  assert (calls s1 !! (length (calls s) + 1)
          = Some (InFlight (AwaitDisconnect fileUri (length (promises s) + 1)))) as Hd.
  { subst s1. cbn [calls]. by rewrite lookup_after. }
  assert (∃ t0 t1, calls s1 !! (length (calls s) + 2)
            = Some (InFlight (AwaitConnect fileUri creds t0 t1
                                (S (length (promises s) + 1))))) as (t0 & t1 & Hc).
  { eexists _, _. subst s1. cbn [calls]. by rewrite lookup_after. }
  assert (promises s1 !! length (promises s) = Some (Pending [])) as Hp0
    by (subst s1; cbn [promises]; by rewrite lookup_at_length).
  assert (promises s1 !! (length (promises s) + 1) = Some (Fulfilled true)) as Hp1
    by (subst s1; cbn [promises]; by rewrite lookup_after).
  assert (promises s1 !! S (length (promises s) + 1)
          = Some (Pending [ThenResolveTrue (length (promises s))])) as Hp2.
  { subst s1; cbn [promises].
    replace (S (length (promises s) + 1)) with (length (promises s) + 2) by lia.
    by rewrite lookup_after. }
  assert (_connections s1 = _connections s) as Hr1 by done.
  assert (microtasks s1 = []) as Hq1 by done.
  clearbody s1. split.
  - cbn [run].
    rewrite (answer_disconnect_settled _ _ _ outcome _ Hq1 Hd)
      by (intros rs; rewrite Hp1; done).
    match goal with |- context [step _ ?st] => set (s2 := st) end.
    destruct (answer_connect_chained (length (calls s) + 2) fileUri creds t0 t1
                (S (length (promises s) + 1)) (length (promises s)) result s2)
      as (s3 & Hs3 & _ & Hp3 & _ & Hr3); [done | | done | done | done |].
    { subst s2. cbn [calls]. by rewrite list_lookup_insert_ne by lia. }
    rewrite Hs3. eexists. split; [reflexivity|]. split.
    + rewrite Hp3. apply list_lookup_insert_eq. rewrite length_insert.
      by apply lookup_lt_Some in Hp0.
    + rewrite Hr3. apply lookup_insert_eq.
  - destruct (answer_connect_chained (length (calls s) + 2) fileUri creds t0 t1
                (S (length (promises s) + 1)) (length (promises s)) result
                s1 Hq1 Hc Hp2 Hp0 Hid) as (s2 & Hs2 & Hq2 & Hp & Hcs & Hr2).
    cbn [run]. rewrite Hs2.
    rewrite (answer_disconnect_settled (length (calls s) + 1) fileUri
               (length (promises s) + 1) outcome s2 Hq2).
    + eexists. split; [reflexivity|]. cbn [promises _connections]. split.
      * rewrite Hp. apply list_lookup_insert_eq. rewrite length_insert.
        by apply lookup_lt_Some in Hp0.
      * apply lookup_delete_eq.
    + rewrite Hcs. by rewrite list_lookup_insert_ne by lia.
    + intros rs. rewrite Hp. rewrite !list_lookup_insert_ne by lia. by rewrite Hp1.
Qed.

End Replace.

(** * The further properties on concrete runs *)

Lemma methods_leave_registry_witness :
  ∃ s',
    @step Sample.constants (Invoke Cmd_onDisconnect) Sample.afterConnect = Some s' ∧
    _connections s' = _connections Sample.afterConnect ∧
    ∀ fileUri, isConnected fileUri s' = isConnected fileUri Sample.afterConnect.
Proof.
  eexists. split; [reflexivity|].
  apply (@methods_leave_registry Sample.constants Cmd_onDisconnect Sample.afterConnect).
  reflexivity.
Defined.

Lemma entry_changes_with_own_answer_witness :
  ∃ s',
    @step Sample.constants (Answer 0 (ConnectionResponse Sample.connected))
      Sample.connectSent = Some s' ∧
    _connections s' !! Sample.uri ≠ _connections Sample.connectSent !! Sample.uri ∧
    ∃ call callback answer,
      Answer 0 (ConnectionResponse Sample.connected) = Answer call answer ∧
      calls Sample.connectSent !! call = Some (InFlight callback) ∧
      requestOwner (InFlight callback) = Some Sample.uri.
Proof.
  eexists. split; [reflexivity|]. split; [vm_compute; discriminate|].
  eapply (@entry_changes_with_own_answer Sample.constants
            (Answer 0 (ConnectionResponse Sample.connected)) Sample.connectSent _ Sample.uri);
    [reflexivity | vm_compute; discriminate].
Defined.

Lemma status_view_agrees_with_registry_witness :
  @reachable Sample.constants Sample.afterConnect ∧
  credentials <$> _connections Sample.afterConnect !! Sample.uri
    = shownSession (log Sample.afterConnect) Sample.uri.
Proof.
  split; [apply afterConnect_reachable|].
  apply (@status_view_agrees_with_registry Sample.constants Sample.afterConnect Sample.uri).
  apply afterConnect_reachable.
Defined.


Lemma disconnect_outcome_is_always_true_witness :
  ∃ s',
    @run Sample.constants [Answer 1 (DisconnectResponse false)]
      (snd (disconnect Sample.uri Sample.afterConnect)) = Some s' ∧
    promises (snd (disconnect Sample.uri Sample.afterConnect))
      !! fst (disconnect Sample.uri Sample.afterConnect) = Some (Fulfilled true) ∧
    promises s' !! fst (disconnect Sample.uri Sample.afterConnect) = Some (Fulfilled true).
Proof.
  eexists. split; [vm_compute; reflexivity|].
  apply (@disconnect_outcome_is_always_true Sample.constants Sample.uri Sample.afterConnect
           [Answer 1 (DisconnectResponse false)]).
  vm_compute. reflexivity.
Defined.

Lemma connect_accepted_witness :
  @reachable Sample.constants Sample.connectSent ∧
  calls Sample.connectSent !! 0
    = Some (InFlight (AwaitConnect Sample.uri Sample.creds1
                        (Timer.mk 0 None) (Timer.mk 10 None) 0)) ∧
  Contracts.connectionId Sample.connected ≠ "" ∧
  ∃ s',
    @step Sample.constants (Answer 0 (ConnectionResponse Sample.connected))
      Sample.connectSent = Some s' ∧
    promises s' !! 0 = Some (Fulfilled true) ∧
    _connections s' !! Sample.uri = Some (mkConnectionInfo "abc" Sample.creds1) ∧
    StatusView_connectSuccess Sample.uri Sample.creds1 ∈ log s'.
Proof.
  split; [apply connectSent_reachable|]. split; [reflexivity|]. split; [discriminate|].
  apply (@connect_accepted Sample.constants Sample.connectSent 0 Sample.uri Sample.creds1
           (Timer.mk 0 None) (Timer.mk 10 None) 0 Sample.connected);
    [apply connectSent_reachable | reflexivity | discriminate].
Defined.

Lemma choose_database_not_connected_witness :
  microtasks Sample.start = [] ∧
  isConnected (activeTextEditorUri Sample.start) Sample.start = false ∧
  @step Sample.constants (Invoke Cmd_onChooseDatabase) Sample.start
  = Some (set_log
            (λ l, l ++ [Utils_showWarnMsg
                          (@Constants.msgChooseDatabaseNotConnected Sample.constants)])
            Sample.start).
Proof.
  split; [reflexivity|]. split; [reflexivity|].
  apply (@choose_database_not_connected Sample.constants Sample.start); reflexivity.
Defined.

Lemma choose_database_dismissed_witness :
  microtasks Sample.afterConnect = [] ∧
  _connections Sample.afterConnect !! activeTextEditorUri Sample.afterConnect
    = Some (mkConnectionInfo "abc" Sample.creds1) ∧
  ∃ s',
    @run Sample.constants
      [Invoke Cmd_onChooseDatabase;
       Answer (length (calls Sample.afterConnect)) (CredentialsPicked None)]
      Sample.afterConnect = Some s' ∧
    _connections s' = _connections Sample.afterConnect ∧
    promises s' = promises Sample.afterConnect ∧
    calls s' = calls Sample.afterConnect ++ [Completed] ∧
    log s' = log Sample.afterConnect ++
      [UI_showDatabasesOnCurrentServer (length (calls Sample.afterConnect))
         (credentials (mkConnectionInfo "abc" Sample.creds1))].
Proof.
  split; [reflexivity|]. split; [reflexivity|].
  apply (@choose_database_dismissed Sample.constants
           (mkConnectionInfo "abc" Sample.creds1) Sample.afterConnect); reflexivity.
Defined.

Lemma choose_database_connect_accepted_witness :
  microtasks Sample.afterConnect = [] ∧
  _connections Sample.afterConnect !! activeTextEditorUri Sample.afterConnect
    = Some (mkConnectionInfo "abc" Sample.creds1) ∧
  Contracts.connectionId Sample.connected ≠ "" ∧
  ∃ s1,
    @run Sample.constants
      [Invoke Cmd_onChooseDatabase;
       Answer (length (calls Sample.afterConnect))
         (CredentialsPicked (Some Sample.creds2))]
      Sample.afterConnect = Some s1 ∧
    (∃ s2, @run Sample.constants
             [Answer (length (calls Sample.afterConnect) + 1) (DisconnectResponse true);
              Answer (length (calls Sample.afterConnect) + 2)
                (ConnectionResponse Sample.connected)] s1 = Some s2 ∧
           _connections s2 !! activeTextEditorUri Sample.afterConnect
             = Some (mkConnectionInfo (Contracts.connectionId Sample.connected)
                       Sample.creds2)) ∧
    (∃ s2, @run Sample.constants
             [Answer (length (calls Sample.afterConnect) + 2)
                (ConnectionResponse Sample.connected);
              Answer (length (calls Sample.afterConnect) + 1) (DisconnectResponse true)]
             s1 = Some s2 ∧
           _connections s2 !! activeTextEditorUri Sample.afterConnect = None).
Proof.
  split; [reflexivity|]. split; [reflexivity|]. split; [discriminate|].
  apply (@choose_database_connect_accepted Sample.constants
           (mkConnectionInfo "abc" Sample.creds1) Sample.creds2 Sample.connected true
           Sample.afterConnect); [reflexivity | reflexivity | discriminate].
Defined.

Lemma new_connection_resolves_with_connect_witness :
  microtasks Sample.start = [] ∧
  _connections Sample.start !! activeTextEditorUri Sample.start = None ∧
  Contracts.connectionId Sample.connected ≠ "" ∧
  ∃ s2 s3,
    @run Sample.constants
      [Invoke Cmd_onNewConnection;
       Answer (length (calls Sample.start)) (CredentialsPicked (Some Sample.creds1))]
      Sample.start = Some s2 ∧
    promises s2 !! fst (@onNewConnection Sample.constants Sample.start)
      = Some (Pending []) ∧
    @step Sample.constants
      (Answer (length (calls Sample.start) + 1) (ConnectionResponse Sample.connected)) s2
      = Some s3 ∧
    promises s3 !! fst (@onNewConnection Sample.constants Sample.start)
      = Some (Fulfilled true) ∧
    _connections s3 !! activeTextEditorUri Sample.start
      = Some (mkConnectionInfo (Contracts.connectionId Sample.connected) Sample.creds1).
Proof.
  split; [reflexivity|]. split; [reflexivity|]. split; [discriminate|].
  apply (@new_connection_resolves_with_connect Sample.constants Sample.creds1
           Sample.connected Sample.start); [reflexivity | reflexivity | discriminate].
Defined.

Lemma new_connection_dismissed_witness :
  @reachable Sample.constants Sample.connectSent ∧
  ∃ s',
    @run Sample.constants
      [Invoke Cmd_onNewConnection;
       Answer (length (calls Sample.connectSent)) (CredentialsPicked None)]
      Sample.connectSent = Some s' ∧
    promises s' !! fst (@onNewConnection Sample.constants Sample.connectSent)
      = Some (Pending []) ∧
    untargeted s' (fst (@onNewConnection Sample.constants Sample.connectSent)) ∧
    _connections s' = _connections Sample.connectSent.
Proof.
  split; [apply connectSent_reachable|].
  apply (@new_connection_dismissed Sample.constants Sample.connectSent).
  apply connectSent_reachable.
Defined.


Lemma editor_change_commutes_witness :
  usesActiveEditor (Answer 0 (ConnectionResponse Sample.connected)) = false ∧
  @run Sample.constants
    [ActiveEditorChanged "untitled:Untitled-2";
     Answer 0 (ConnectionResponse Sample.connected)] Sample.connectSent
  = @run Sample.constants
      [Answer 0 (ConnectionResponse Sample.connected);
       ActiveEditorChanged "untitled:Untitled-2"] Sample.connectSent.
Proof.
  split; [reflexivity|].
  apply (@editor_change_commutes Sample.constants
           (Answer 0 (ConnectionResponse Sample.connected)) "untitled:Untitled-2"
           Sample.connectSent).
  reflexivity.
Defined.


Lemma create_profile_outcome_witness :
  microtasks Sample.afterConnect = [] ∧
  ∃ s1 s2,
    @step Sample.constants (Invoke Cmd_onCreateProfile) Sample.afterConnect = Some s1 ∧
    promises s1 !! fst (onCreateProfile Sample.afterConnect) = Some (Pending []) ∧
    @step Sample.constants
      (Answer (length (calls Sample.afterConnect)) (ProfileCreated None)) s1 = Some s2 ∧
    promises s2 !! fst (onCreateProfile Sample.afterConnect)
      = Some (Fulfilled (bool_decide (is_Some (@None string)))) ∧
    _connections s2 = _connections Sample.afterConnect ∧
    log s2 = log Sample.afterConnect ++
      [UI_createAndSaveProfile (length (calls Sample.afterConnect))].
Proof.
  split; [reflexivity|].
  apply (@create_profile_outcome Sample.constants None Sample.afterConnect). reflexivity.
Defined.

Lemma clock_steady : steady Sample.clock.
Proof. intros i j Hij. unfold Sample.clock. nia. Qed.

Lemma telemetry_measures_not_negative_witness :
  @reachable Sample.constants Sample.afterConnect ∧
  steady (hrtime Sample.afterConnect) ∧
  measuresOk (log Sample.afterConnect) ∧ timersOk Sample.afterConnect.
Proof.
  split; [apply afterConnect_reachable|]. split; [apply clock_steady|].
  apply (@telemetry_measures_not_negative Sample.constants Sample.afterConnect);
    [apply afterConnect_reachable | apply clock_steady].
Defined.

Lemma new_connection_replaces_connection_witness :
  microtasks Sample.afterConnect = [] ∧
  _connections Sample.afterConnect !! activeTextEditorUri Sample.afterConnect
    = Some (mkConnectionInfo "abc" Sample.creds1) ∧
  Contracts.connectionId Sample.connected ≠ "" ∧
  ∃ s1,
    @run Sample.constants
      [Invoke Cmd_onNewConnection;
       Answer (length (calls Sample.afterConnect))
         (CredentialsPicked (Some Sample.creds2))]
      Sample.afterConnect = Some s1 ∧
    Client_sendRequest (length (calls Sample.afterConnect) + 1)
      (Contracts.DisconnectRequest
         (Contracts.DisconnectParams.mk (activeTextEditorUri Sample.afterConnect)))
      ∈ log s1 ∧
    Client_sendRequest (length (calls Sample.afterConnect) + 2)
      (Contracts.ConnectionRequest
         (connectParamsOf (activeTextEditorUri Sample.afterConnect) Sample.creds2))
      ∈ log s1 ∧
    promises s1 !! fst (@onNewConnection Sample.constants Sample.afterConnect)
      = Some (Pending []) ∧
    (∃ s2, @run Sample.constants
             [Answer (length (calls Sample.afterConnect) + 1) (DisconnectResponse false);
              Answer (length (calls Sample.afterConnect) + 2)
                (ConnectionResponse Sample.connected)] s1 = Some s2 ∧
           promises s2 !! fst (@onNewConnection Sample.constants Sample.afterConnect)
             = Some (Fulfilled true) ∧
           _connections s2 !! activeTextEditorUri Sample.afterConnect
             = Some (mkConnectionInfo (Contracts.connectionId Sample.connected)
                       Sample.creds2)) ∧
    (∃ s2, @run Sample.constants
             [Answer (length (calls Sample.afterConnect) + 2)
                (ConnectionResponse Sample.connected);
              Answer (length (calls Sample.afterConnect) + 1) (DisconnectResponse false)]
             s1 = Some s2 ∧
           promises s2 !! fst (@onNewConnection Sample.constants Sample.afterConnect)
             = Some (Fulfilled true) ∧
           _connections s2 !! activeTextEditorUri Sample.afterConnect = None).
Proof.
  split; [reflexivity|]. split; [reflexivity|]. split; [discriminate|].
  apply (@new_connection_replaces_connection Sample.constants
           (mkConnectionInfo "abc" Sample.creds1) Sample.creds2 Sample.connected false
           Sample.afterConnect); [reflexivity | reflexivity | discriminate].
Defined.
